(** * mkv-strip: a shallow embedding of [mkv-strip.py]

    The script strips Matroska files down to one audio / subtitle language by
    driving the external [mkvmerge] tool.  It is a module-level Python script:
    a handful of helper functions that read and write module globals
    ([file_to_tracks], [content], [path]), followed by the top-level code that
    calls them in sequence.

    The embedding follows the script statement by statement:

    - Python [str] values are Rocq [string]s (characters are code points below
      256); a track is the tuple returned by [m.groups()], a pair of strings;
    - the global dictionary [file_to_tracks] is an insertion-ordered
      association list, iterated by a model of CPython's dictionary iterator
      (including its size check);
    - the module globals, the file system and the sequence of observable
      actions (log lines, prints, spawned processes, renames) form an explicit
      state, threaded by a small state-and-exception monad [Py];
    - the outside world ([os.listdir], [hashlib.md5], the spawned process and
      the platform's [os.rename] flavour) is a parameter of the development. *)

From Stdlib Require Import ZArith String Ascii.
From stdpp Require Import gmap strings list pretty.

Open Scope string_scope.
Open Scope list_scope.

(** ** Strings *)

Module Str.

(** [s.startswith(p)] *)
Fixpoint startswith (p s : string) : bool :=
  match p, s with
  | EmptyString, _ => true
  | String a p', String b s' => Ascii.eqb a b && startswith p' s'
  | String _ _, EmptyString => false
  end.

(** [s.endswith(p)] *)
Definition endswith (p s : string) : bool :=
  (String.length p <=? String.length s)%nat &&
  bool_decide (String.substring (String.length s - String.length p) (String.length p) s = p).

(** [sub in s] on strings: substring test. *)
Fixpoint contains (sub s : string) : bool :=
  startswith sub s ||
  match s with
  | EmptyString => false
  | String _ s' => contains sub s'
  end.

(** [sep.join(parts)] *)
Fixpoint join (sep : string) (parts : list string) : string :=
  match parts with
  | [] => ""
  | [p] => p
  | p :: ps => p +:+ sep +:+ join sep ps
  end.

(** Truth value of a [str]: the empty string is false. *)
Definition truthy (s : string) : bool := negb (bool_decide (s = "")).

(** [io.StringIO(text)] iterated line by line: lines end at (and keep) each
    line feed; a last line without line feed is yielded when non-empty. *)
Fixpoint lines_from (cur : string) (s : string) : list string :=
  match s with
  | EmptyString => if bool_decide (cur = "") then [] else [String.rev cur]
  | String c s' =>
      if Ascii.eqb c "010"%char
      then String.rev (String c cur) :: lines_from "" s'
      else lines_from (String c cur) s'
  end.

Definition lines (s : string) : list string := lines_from "" s.

End Str.

(** ** Regular expressions

    The fragment of Python's [re] the script uses, with the backtracking
    semantics of the [re] engine: a matcher in continuation-passing style that
    tries the greedy alternative first and falls back on failure.  Groups are
    numbered by their closing order, which for the script's patterns (no nested
    groups) is the order of [m.groups()]. *)

Module Re.

Inductive regex : Type :=
| Chr (p : ascii -> bool)        (* one character of a class *)
| Star (p : ascii -> bool)       (* greedy [c*] over a character class *)
| Seq (r1 r2 : regex)
| Group (r : regex).

Fixpoint lit (s : string) (k : regex) : regex :=
  match s with
  | EmptyString => k
  | String c s' => Seq (Chr (Ascii.eqb c)) (lit s' k)
  end.

(** [\d] on the alphabet of the embedding (code points below 256), where
    the decimal digits are [0] to [9].  On a Python [str] the class also
    holds the decimal digits of other scripts, which this alphabet does not
    have; no statement below depends on which digits there are. *)
Definition digit (c : ascii) : bool :=
  let n := nat_of_ascii c in ((48 <=? n) && (n <=? 57))%nat.

(** [[a-z]] *)
Definition lower (c : ascii) : bool :=
  let n := nat_of_ascii c in ((97 <=? n) && (n <=? 122))%nat.

(** [.] without DOTALL: anything but a line feed *)
Definition dot (c : ascii) : bool := negb (Ascii.eqb c "010"%char).

Section Matcher.
Context {R : Type}.

Fixpoint star (p : ascii -> bool) (s : string) (k : string -> option R) : option R :=
  match s with
  | String c s' =>
      if p c then
        match star p s' k with
        | Some r => Some r
        | None => k s
        end
      else k s
  | EmptyString => k s
  end.

Fixpoint run (r : regex) (s : string) (caps : list string)
    (k : string -> list string -> option R) : option R :=
  match r with
  | Chr p =>
      match s with
      | String c s' => if p c then k s' caps else None
      | EmptyString => None
      end
  | Star p => star p s (fun s' => k s' caps)
  | Seq r1 r2 => run r1 s caps (fun s' caps' => run r2 s' caps' k)
  | Group r1 =>
      run r1 s caps (fun s' caps' =>
        k s' (caps' ++ [String.substring 0 (String.length s - String.length s') s]))
  end.
End Matcher.

(** [pattern.match(s)] followed by [.groups()]: anchored at the start of
    [s], not at its end; [None] when there is no match. *)
Definition match_groups (r : regex) (s : string) : option (list string) :=
  run r s [] (fun _ caps => Some caps).

End Re.

(** [Track ID (\d+): <kind> .*language:([a-z]{3})] *)
Definition track_re (kind : string) : Re.regex :=
  Re.lit "Track ID "
    (Re.Seq (Re.Group (Re.Seq (Re.Chr Re.digit) (Re.Star Re.digit)))
       (Re.lit (": " +:+ kind +:+ " ")
          (Re.Seq (Re.Star Re.dot)
             (Re.lit "language:"
                (Re.Group (Re.Seq (Re.Chr Re.lower)
                             (Re.Seq (Re.Chr Re.lower) (Re.Chr Re.lower)))))))).

Definition AUDIO_RE : Re.regex := track_re "audio".
Definition SUBTITLE_RE : Re.regex := track_re "subtitles".

(** A track as the script holds it: the tuple [m.groups()] of the track id and
    the language code, both strings. *)
Definition Track : Type := string * string.

Definition groups_pair (g : list string) : option Track :=
  match g with
  | [i; l] => Some (i, l)
  | _ => None
  end.

(** The loop body of [_extract_tracks] (lines 79-86), on the two accumulators. *)
Definition extract_line (acc : list Track * list Track) (line : string)
    : list Track * list Track :=
  match Re.match_groups AUDIO_RE line ≫= groups_pair with
  | Some t => (acc.1 ++ [t], acc.2)
  | None =>
      match Re.match_groups SUBTITLE_RE line ≫= groups_pair with
      | Some t => (acc.1, acc.2 ++ [t])
      | None => acc
      end
  end.

Definition parse_tracks (text : string) : list Track * list Track :=
  foldl extract_line ([], []) (Str.lines text).

(** ** Records, exceptions and the program state *)

(** [class MKVFile].  [audio_args] and [subtitle_args] are class attributes
    initialised to the empty list; the script only ever rebinds them on an
    instance and never mutates the shared list, so an instance without its own
    binding reads [[]]. *)
Record MKVFile : Type := mkMKVFile {
  filename : string;
  audio : list Track;
  subtitle : list Track;
  root : string;
  audio_args : list string;
  subtitle_args : list string;
}.

(** [MKVFile(root=..., filename=..., audio=..., subtitle=...)] *)
Definition MKVFile_init (r f : string) (a s : list Track) : MKVFile :=
  mkMKVFile f a s r [] [].

Definition set_audio_args (cmd : list string) (rec : MKVFile) : MKVFile :=
  mkMKVFile (filename rec) (audio rec) (subtitle rec) (root rec) cmd (subtitle_args rec).

Definition set_subtitle_args (cmd : list string) (rec : MKVFile) : MKVFile :=
  mkMKVFile (filename rec) (audio rec) (subtitle rec) (root rec) (audio_args rec) cmd.

(** The exceptions the script can meet. *)
Inductive PyExc : Type :=
| Exception (payload : string)       (* [raise Exception(stdout)] *)
| RuntimeError (msg : string)
| NameError (name : string)
| UnboundLocalError (name : string)
| OSError (what : string)
| FileNotFoundError (p : string)
| FileExistsError (p : string).

(** What the script does to the outside, in order. *)
Inductive Event : Type :=
| Log (msg : string)                 (* [logger.critical(msg)] *)
| Print (line : string)              (* [print(line)] *)
| Popen (cmd : list string)          (* [subprocess.Popen(cmd, ...)] and [communicate()] *)
| Rename (src dst : string).         (* a call of [os.rename(src, dst)] *)

(** The command line, as [argparse] hands it over. [None] is an option that
    was not given. *)
Record Args : Type := mkArgs {
  input_directory : string;
  audio_language : option string;
  subtitle_language : option string;
  list_tracks : bool;
}.

(** Truth value of an optional string ([None] and [''] are false). *)
Definition truthy (v : option string) : bool :=
  match v with
  | Some s => Str.truthy s
  | None => false
  end.

(** The file system: regular files by path, with their content. *)
Abbreviation FS := (gmap string string).

(** The state the script runs in.  [content] and [path] are module globals that
    are unbound ([None]) until the top-level code first assigns them. *)
Record State : Type := mkState {
  fs : FS;
  trace : list Event;
  file_to_tracks : list (string * MKVFile);
  content : option string;
  path : option string;
}.

Definition initial (files : FS) : State := mkState files [] [] None None.

(** ** The monad of Python statements: state, and an exception or a value *)

Inductive Res (A : Type) : Type :=
| Ok (a : A)
| Raise (e : PyExc).
Arguments Ok {A} a.
Arguments Raise {A} e.

Definition Py (A : Type) : Type := State -> Res A * State.

Definition ret {A} (a : A) : Py A := fun st => (Ok a, st).

Definition raise {A} (e : PyExc) : Py A := fun st => (Raise e, st).

Definition bind {A B} (m : Py A) (f : A -> Py B) : Py B :=
  fun st =>
    match m st with
    | (Ok a, st') => f a st'
    | (Raise e, st') => (Raise e, st')
    end.

Declare Scope py_scope.
Delimit Scope py_scope with py.
Notation "x <- m ;; k" := (bind m (fun x => k))
  (at level 100, m at next level, right associativity) : py_scope.
Notation "m ;; k" := (bind m (fun _ => k))
  (at level 100, right associativity) : py_scope.
Open Scope py_scope.

Definition emit (e : Event) : Py unit :=
  fun st => (Ok tt, mkState (fs st) (trace st ++ [e]) (file_to_tracks st) (content st) (path st)).

Definition get_dict : Py (list (string * MKVFile)) :=
  fun st => (Ok (file_to_tracks st), st).

Definition put_dict (d : list (string * MKVFile)) : Py unit :=
  fun st => (Ok tt, mkState (fs st) (trace st) d (content st) (path st)).

Definition put_fs (f : FS) : Py unit :=
  fun st => (Ok tt, mkState f (trace st) (file_to_tracks st) (content st) (path st)).

Definition get_fs : Py FS := fun st => (Ok (fs st), st).

(** Reading and assigning the module globals [content] and [path]. *)
Definition load_content : Py string :=
  fun st => match content st with
            | Some c => (Ok c, st)
            | None => (Raise (NameError "content"), st)
            end.

Definition store_content (c : string) : Py unit :=
  fun st => (Ok tt, mkState (fs st) (trace st) (file_to_tracks st) (Some c) (path st)).

Definition load_path : Py string :=
  fun st => match path st with
            | Some p => (Ok p, st)
            | None => (Raise (NameError "path"), st)
            end.

Definition store_path (p : string) : Py unit :=
  fun st => (Ok tt, mkState (fs st) (trace st) (file_to_tracks st) (content st) (Some p)).

(** [for x in xs: body(x)] over an immutable list. *)
Fixpoint for_each {A} (xs : list A) (body : A -> Py unit) : Py unit :=
  match xs with
  | [] => ret tt
  | x :: xs' => body x ;; for_each xs' body
  end.

(** ** The dictionary [file_to_tracks] *)

Module Dict.

(** [d[k] = v]: an existing key keeps its place, a new key goes last. *)
Fixpoint set (k : string) (v : MKVFile) (d : list (string * MKVFile))
    : list (string * MKVFile) :=
  match d with
  | [] => [(k, v)]
  | (k', v') :: d' =>
      if bool_decide (k' = k) then (k, v) :: d' else (k', v') :: set k v d'
  end.

(** [del d[k]] *)
Fixpoint del (k : string) (d : list (string * MKVFile)) : list (string * MKVFile) :=
  match d with
  | [] => []
  | (k', v') :: d' => if bool_decide (k' = k) then d' else (k', v') :: del k d'
  end.

Definition setitem (k : string) (v : MKVFile) : Py unit :=
  d <- get_dict ;; put_dict (set k v d).

Definition delitem (k : string) : Py unit :=
  d <- get_dict ;; put_dict (del k d).

(** [for key, rec in d.items(): body(key, rec)] on the dictionary of the
    state, which the body may change.  The iterator remembers the size the
    dictionary had when the loop started ([used]) and its position; every
    request for the next item first compares the sizes and raises
    [RuntimeError] when they differ, and only then looks whether items are
    left.  [remaining] counts the positions not yet visited. *)
Fixpoint iter (remaining used pos : nat) (body : string -> MKVFile -> Py unit)
    : Py unit :=
  fun st =>
    if negb (length (file_to_tracks st) =? used)%nat
    then (Raise (RuntimeError "dictionary changed size during iteration"), st)
    else
      match remaining with
      | O => (Ok tt, st)
      | S n =>
          match file_to_tracks st !! pos with
          | Some (k, rec) => (body k rec ;; iter n used (S pos) body) st
          | None => (Ok tt, st)
          end
      end.

Definition for_items (body : string -> MKVFile -> Py unit) : Py unit :=
  fun st =>
    let n := length (file_to_tracks st) in
    iter n n 0 body st.

End Dict.

(** ** [os.path.join] and [os.rename] *)

(** [os.path.join(a, b)] for two components, as [posixpath] defines it. *)
Definition join (a b : string) : string :=
  if Str.startswith "/" b then b
  else if negb (Str.truthy a) || Str.endswith "/" a then a +:+ b
  else a +:+ "/" +:+ b.

(** [os.path.isfile(p)] *)
Definition isfile (p : string) : Py bool :=
  fun st => (Ok (bool_decide (is_Some (fs st !! p))), st).

(** [os.rename(src, dst)] on regular files.  A missing source raises
    [FileNotFoundError].  An existing destination is replaced silently on
    POSIX and raises [FileExistsError] on Windows ([windows = true]). *)
Definition os_rename (windows : bool) (src dst : string) : Py unit :=
  emit (Rename src dst) ;;
  f <- get_fs ;;
  match f !! src with
  | None => raise (FileNotFoundError src)
  | Some c =>
      if windows && bool_decide (is_Some (f !! dst))
      then raise (FileExistsError dst)
      else put_fs (<[dst := c]> (delete src f))
  end.

(** ** The script *)

(** [MKVMERGE], line 47. *)
Definition MKVMERGE : string := "C:/Program Files/MKVtoolnix/mkvmerge.exe".

Section Script.

(** The parsed command line (line 41). *)
Variable args : Args.

(** [true] when [os.rename] refuses an existing destination. *)
Variable windows : bool.

(** [os.listdir(root)] on the current file system; [None] when it raises. *)
Variable os_listdir : string -> FS -> option (list string).

(** [md5(filename.encode()).hexdigest()] *)
Variable md5_hexdigest : string -> string.

(** A spawned process, run to completion on the current file system: its
    return code, its standard output (decoded), and the file system it
    leaves behind. *)
Variable run_process : list string -> FS -> Z * string * FS.

(** [subprocess.Popen(cmd, ...)] followed by [communicate()]. *)
Definition popen (cmd : list string) : Py (Z * string) :=
  emit (Popen cmd) ;;
  f <- get_fs ;;
  let '(rc, out, f') := run_process cmd f in
  put_fs f' ;;
  ret (rc, out).

(** Lines 53-58. *)
Definition _get_file_list (root : string) : Py (list string) :=
  emit (Log ("Processing " +:+ root)) ;;
  f <- get_fs ;;
  match os_listdir root f with
  | None => raise (OSError root)
  | Some dir_contents =>
      ret (List.filter
             (fun n => bool_decide (is_Some (f !! join root n)) && Str.endswith ".mkv" n)
             dir_contents)
  end.

(** Lines 61-71.  The output of the process is taken as text: the
    [decode('utf-8')] of lines 70-71, which raises on bytes that are not
    UTF-8, is not part of the embedding. *)
Definition _mkvmerge_identify (root filename : string) : Py string :=
  emit (Log ("[" +:+ filename +:+ "] Identifying")) ;;
  let cmd := [MKVMERGE; "--identify-verbose"; join root filename] in
  r <- popen cmd ;;
  if negb (r.1 =? 0)%Z then
    emit (Log ("[" +:+ filename +:+ "] mkvmerge failed to identify the file")) ;;
    raise (Exception r.2)
  else ret r.2.

(** Lines 74-91.  The loop reads the module global [content]; the parameter
    [mkvmerge_output] is not used by the body. *)
Definition _extract_tracks (mkvmerge_output filename : string)
    : Py (list Track * list Track) :=
  emit (Log ("[" +:+ filename +:+ "] Extracting tracks")) ;;
  c <- load_content ;;
  let tracks := parse_tracks c in
  emit (Log ("[" +:+ filename +:+ "] Found " +:+ pretty (length tracks.1) +:+ " audio and "
             +:+ pretty (length tracks.2) +:+ " subtitle tracks")) ;;
  ret tracks.

(** Lines 94-104. *)
Definition print_track (t : Track) : Py unit :=
  emit (Print ("  " +:+ t.1 +:+ " is " +:+ t.2)).

Definition _list_tracks : Py unit :=
  Dict.for_items (fun key rec =>
    emit (Print "f{rec.filename}") ;;
    emit (Print " Audio tracks") ;;
    for_each (audio rec) print_track ;;
    for_each (subtitle rec) print_track ;;
    emit (Print "")).

(** Lines 107-114.  [file_tracks] is the dictionary of the state itself (the
    caller passes [file_to_tracks]), so [del] acts on the dictionary being
    iterated. *)
Definition _audio_check : Py (list (string * MKVFile)) :=
  Dict.for_items (fun key rec =>
    if (length (audio rec) <? 2)%nat then
      emit (Log ("[" +:+ filename rec +:+ "] At least 1 audio track required")) ;;
      Dict.delitem key
    else ret tt) ;;
  get_dict.

(** Lines 117-124. *)
Definition _subtitle_check : Py (list (string * MKVFile)) :=
  Dict.for_items (fun key rec =>
    if (length (subtitle rec) <? 2)%nat then
      emit (Log ("[" +:+ filename rec +:+ "] At least 1 subtitle track required")) ;;
      Dict.delitem key
    else ret tt) ;;
  get_dict.

(** Reading a local variable of [_build_args] that may not have been
    assigned. *)
Definition load_local {A} (name : string) (v : option A) : Py A :=
  match v with
  | Some a => ret a
  | None => raise (UnboundLocalError name)
  end.

(** [a[1] == lang], where [lang] is [None] or a string. *)
Definition lang_eqb (lang : option string) (a : Track) : bool :=
  match lang with
  | Some l => bool_decide (a.2 = l)
  | None => false
  end.

(** Lines 156-160: the arguments for the tracks kept. *)
Definition keep_args (langtype : string) (filterlang : list Track) : list string :=
  ["--" +:+ langtype +:+ "-tracks"; Str.join "," (map fst filterlang)]
  ++ concat (imap (fun i a =>
                     ["--default-track";
                      Str.join ":" [a.1; match i with O => "1" | S _ => "0" end]])
                  filterlang).

(** Lines 131-165: one round of the loop of [_build_args]. *)
Definition build_args_body (langtype : string) (key : string) (rec : MKVFile) : Py unit :=
  emit (Log ("[" +:+ filename rec +:+ "] Building CLI arguments for " +:+ langtype +:+ " tracks")) ;;
  (* lines 135-140: [lang] and [field] are assigned under both tests only *)
  let locals0 : option (option string) * option (list Track) := (None, None) in
  let locals1 :=
    if Str.contains "audio" langtype
    then (Some (audio_language args), Some (audio rec)) else locals0 in
  let locals2 :=
    if Str.contains "language" langtype
    then (Some (audio_language args), Some (audio rec)) else locals1 in
  (* line 142 *)
  field <- load_local "field" locals2.2 ;;
  lang <- load_local "lang" locals2.1 ;;
  let filterlang := List.filter (lang_eqb lang) field in
  if truthy lang && (length filterlang =? 0)%nat then
    (* lines 143-148: the message names the module global [path] *)
    p <- load_path ;;
    emit (Log ("[" +:+ filename rec +:+ "] No " +:+ langtype +:+ " tracks with language "
               +:+ default "None" lang +:+ " in " +:+ p))
  else if (1 <? length filterlang)%nat then
    (* lines 149-154 *)
    emit (Log ("[" +:+ filename rec +:+ "] More than one " +:+ langtype +:+ " track matching "
               +:+ default "None" lang +:+ ". Skipping"))
  else
    (* lines 155-165 *)
    let cmd := if (0 <? length filterlang)%nat then keep_args langtype filterlang else [] in
    let rec1 := if Str.contains "audio" langtype then set_audio_args cmd rec else rec in
    let rec2 := if Str.contains "audio" langtype then set_subtitle_args cmd rec1 else rec1 in
    Dict.setitem key rec2.

(** Lines 127-165.  The test of lines 128-129 builds an exception object
    and drops it: it has no effect. *)
Definition _build_args (langtype : string) : Py unit :=
  Dict.for_items (build_args_body langtype).

(** Lines 213-235: one round of the final loop. *)
Definition process (key : string) (rec : MKVFile) : Py unit :=
  if bool_decide (audio_args rec = []) && bool_decide (subtitle_args rec = []) then
    emit (Log ("[" +:+ filename rec +:+ "] No work to be done"))
  else
    let p := join (root rec) (filename rec) in
    store_path p ;;
    let old_file := "old" +:+ filename rec in
    let cmd := [MKVMERGE; "-o"; p +:+ ".temp"] ++ audio_args rec ++ subtitle_args rec ++ [p] in
    emit (Log ("[" +:+ filename rec +:+ "] Processing ...")) ;;
    r <- popen cmd ;;
    if negb (r.1 =? 0)%Z then
      emit (Log "Failed") ;;
      raise (Exception r.2)
    else
      emit (Log "Success") ;;
      os_rename windows p (join (root rec) old_file) ;;
      os_rename windows (p +:+ ".temp") p.

(** Lines 186-196: identification of every listed file. *)
Definition identify_file (filename : string) : Py unit :=
  c <- _mkvmerge_identify (input_directory args) filename ;;
  store_content c ;;
  tracks <- _extract_tracks c filename ;;
  Dict.setitem (md5_hexdigest filename)
    (MKVFile_init (input_directory args) filename tracks.1 tracks.2).

(** Lines 198-211. *)
Definition select : Py unit :=
  (if list_tracks args then _list_tracks else ret tt) ;;
  (if truthy (audio_language args) then (d <- _audio_check ;; put_dict d) else ret tt) ;;
  (if truthy (subtitle_language args) then (d <- _subtitle_check ;; put_dict d) else ret tt) ;;
  (if truthy (audio_language args) then _build_args "audio" else ret tt) ;;
  (if truthy (subtitle_language args) then _build_args "subtitle" else ret tt).

(** The top-level code, lines 186-235. *)
Definition main : Py unit :=
  files <- _get_file_list (input_directory args) ;;
  for_each files identify_file ;;
  select ;;
  Dict.for_items process.

End Script.

(** ** Notions used in the statements *)

(** Occurrences of a character in a string. *)
Fixpoint count_char (c : ascii) (s : string) : nat :=
  match s with
  | EmptyString => 0
  | String c' s' => (if Ascii.eqb c' c then 1 else 0) + count_char c s'
  end.

(** The directory part [join] puts in front of a relative name. *)
Definition dir_prefix (a : string) : string :=
  if negb (Str.truthy a) || Str.endswith "/" a then a else a +:+ "/".

(** The file has something to strip: line 214 does not skip it. *)
Definition has_work (rec : MKVFile) : Prop :=
  audio_args rec ≠ [] ∨ subtitle_args rec ≠ [].

(** The command of line 220-223. *)
Definition remux_cmd (rec : MKVFile) : list string :=
  [MKVMERGE; "-o"; join (root rec) (filename rec) +:+ ".temp"]
  ++ audio_args rec ++ subtitle_args rec ++ [join (root rec) (filename rec)].

Definition backup_path (rec : MKVFile) : string :=
  join (root rec) ("old" +:+ filename rec).

(** What the remux process left behind decides how the round ends. *)
Inductive Ending : Type :=
| RemuxFailed                      (* non-zero exit *)
| OriginalMissing                  (* first rename: no source *)
| BackupExists                     (* first rename: destination refused *)
| OutputMissing (old : string)     (* second rename: no source *)
| Committed (old new : string).

Definition ending (windows : bool) (rec : MKVFile) (rc : Z) (f1 : FS) : Ending :=
  if negb (rc =? 0)%Z then RemuxFailed
  else
    match f1 !! join (root rec) (filename rec) with
    | None => OriginalMissing
    | Some old =>
        if windows && bool_decide (is_Some (f1 !! backup_path rec)) then BackupExists
        else
          match f1 !! (join (root rec) (filename rec) +:+ ".temp") with
          | None => OutputMissing old
          | Some new => Committed old new
          end
    end.

(** A file the eligibility checks of lines 109 and 119 delete. *)
Definition few_audio (kv : string * MKVFile) : Prop := length (audio kv.2) < 2.
Definition few_subtitle (kv : string * MKVFile) : Prop := length (subtitle kv.2) < 2.

#[global] Instance few_audio_dec kv : Decision (few_audio kv) :=
  decide (length (audio kv.2) < 2).
#[global] Instance few_subtitle_dec kv : Decision (few_subtitle kv) :=
  decide (length (subtitle kv.2) < 2).

(** A statement that leaves the module global [path] as it found it. *)
Definition keeps_path {A} (m : Py A) : Prop := ∀ st, path (m st).2 = path st.

(** Lines 186-211 taken together: everything before the final loop. *)
Definition prepare (args : Args) (os_listdir : string -> FS -> option (list string))
    (md5_hexdigest : string -> string) (run_process : list string -> FS -> Z * string * FS)
    : Py unit :=
  files <- _get_file_list os_listdir (input_directory args) ;;
  for_each files (identify_file args md5_hexdigest run_process) ;;
  select args.

(** The names [_get_file_list] keeps, lines 56-57. *)
Definition mkv_files (f : FS) (root : string) (names : list string) : list string :=
  List.filter (fun n => bool_decide (is_Some (f !! join root n)) && Str.endswith ".mkv" n) names.

(** The renames and the spawned commands among some events, in order. *)
Definition renames_of (evs : list Event) : list (string * string) :=
  omap (fun e => match e with Rename s d => Some (s, d) | _ => None end) evs.

Definition popens_of (evs : list Event) : list (list string) :=
  omap (fun e => match e with Popen cmd => Some cmd | _ => None end) evs.

(** The command line of an identification, line 63. *)
Definition identify_cmd (root filename : string) : list string :=
  [MKVMERGE; "--identify-verbose"; join root filename].

(** The state with some events appended to its trace. *)
Definition add_events (evs : list Event) (st : State) : State :=
  mkState (fs st) (trace st ++ evs) (file_to_tracks st) (content st) (path st).

(** A property of states that a statement keeps, however it ends. *)
Definition invariant (I : State -> Prop) {A} (m : Py A) : Prop :=
  ∀ st, I st → I (m st).2.

(** Every character of a string passes a test. *)
Fixpoint all_chars (p : ascii -> bool) (s : string) : bool :=
  match s with
  | EmptyString => true
  | String c s' => p c && all_chars p s'
  end.

(** A track as the two patterns of lines 49-50 can capture it: a non-empty
    id and a code of three lower-case letters. *)
Definition captured_track (t : Track) : Prop :=
  t.1 ≠ "" ∧ String.length t.2 = 3 ∧ all_chars Re.lower t.2 = true.

(** The lines of a text put back together. *)
Fixpoint unlines (ls : list string) : string :=
  match ls with
  | [] => ""
  | l :: ls' => l +:+ unlines ls'
  end.

(** What [_list_tracks] prints for one record, lines 96-104. *)
Definition listing_of (kv : string * MKVFile) : list Event :=
  [Print "f{rec.filename}"; Print " Audio tracks"]
  ++ map (fun t : Track => Print ("  " +:+ t.1 +:+ " is " +:+ t.2)) (audio kv.2)
  ++ map (fun t : Track => Print ("  " +:+ t.1 +:+ " is " +:+ t.2)) (subtitle kv.2)
  ++ [Print ""].

(** A record without arguments of either kind. *)
Definition no_args (kv : string * MKVFile) : Prop :=
  audio_args kv.2 = [] ∧ subtitle_args kv.2 = [].

(** An event that touches no file of the directory: anything but a rename,
    and of the spawned processes only identifications. *)
Definition harmless (dir : string) (e : Event) : Prop :=
  match e with
  | Rename _ _ => False
  | Popen cmd => ∃ name, cmd = identify_cmd dir name
  | _ => True
  end.


(** What identifies a file of the dictionary: its key and everything of its
    record but the two argument lists. *)
Definition identity_of (kv : string * MKVFile) : string * string * list Track * list Track * string :=
  (kv.1, filename kv.2, audio kv.2, subtitle kv.2, root kv.2).

(** The exceptions a round of the final loop raises itself. *)
Definition commit_exception (e : PyExc) : Prop :=
  match e with
  | Exception _ | FileNotFoundError _ | FileExistsError _ => True
  | _ => False
  end.

(** ** A sample directory and sample tools *)

Module Sample.

Definition nl : string := String "010"%char "".

(** Identification output of a file with two audio and two subtitle tracks. *)
Definition two_by_two : string :=
  "File '/m/a.mkv': container: Matroska" +:+ nl +:+
  "Track ID 0: video (V_MPEG4/ISO/AVC) [language:eng pixel_dimensions:1280x720]" +:+ nl +:+
  "Track ID 1: audio (A_AC3) [language:eng default_track:1]" +:+ nl +:+
  "Track ID 2: audio (A_AAC) [language:jpn default_track:0]" +:+ nl +:+
  "Track ID 3: subtitles (S_TEXT/UTF8) [language:eng]" +:+ nl +:+
  "Track ID 4: subtitles (S_TEXT/UTF8) [language:fre]" +:+ nl.

(** Identification output of a file with a single audio track. *)
Definition solo : string :=
  "Track ID 0: video (V_MPEG4/ISO/AVC) [language:eng]" +:+ nl +:+
  "Track ID 1: audio (A_AC3) [language:eng]" +:+ nl.

(** Identification output of a file with two English audio tracks. *)
Definition twins : string :=
  "Track ID 1: audio (A_AC3) [language:eng]" +:+ nl +:+
  "Track ID 2: audio (A_DTS) [language:eng]" +:+ nl.

Definition identify_of (p : string) : Z * string :=
  if bool_decide (p = "/m/a.mkv") then (0%Z, two_by_two)
  else if bool_decide (p = "/m/b.mkv") then (0%Z, two_by_two)
  else if bool_decide (p = "/m/solo.mkv") then (0%Z, solo)
  else if bool_decide (p = "/m/twins.mkv") then (0%Z, twins)
  else (1%Z, "Error: not a Matroska file").

(** A stand-in for [mkvmerge]: identification answers from [identify_of];
    a remux exits with [remux_rc] and, when that is zero, writes its output
    file. *)
Definition tool (remux_rc : Z) (cmd : list string) (f : FS) : Z * string * FS :=
  match cmd with
  | [_; "--identify-verbose"; p] => (identify_of p, f)
  | _ :: "-o" :: out :: _ =>
      if (remux_rc =? 0)%Z then (0%Z, "Muxing took 1 second.", <[out := "stripped"]> f)
      else (remux_rc, "Error: muxing failed", f)
  | _ => (2%Z, "usage", f)
  end.

Definition ls (names : list string) (root : string) (f : FS) : option (list string) :=
  Some names.

Definition no_ls (root : string) (f : FS) : option (list string) := None.

Definition md5 (name : string) : string := "md5:" +:+ name.

Definition disk : FS :=
  <["/m/a.mkv" := "movie a"]> (<["/m/b.mkv" := "movie b"]>
    (<["/m/solo.mkv" := "movie solo"]> (<["/m/twins.mkv" := "movie twins"]>
      (<["/m/broken.mkv" := "garbage"]> (<["/m/notes.txt" := "text"]> ∅))))).

(** The record of [a.mkv] once [_build_args('audio')] has kept track 1. *)
Definition a_selected : MKVFile :=
  mkMKVFile "a.mkv" [("1", "eng"); ("2", "jpn")] [("3", "eng"); ("4", "fre")] "/m"
    ["--audio-tracks"; "1"; "--default-track"; "1:1"]
    ["--audio-tracks"; "1"; "--default-track"; "1:1"].

Definition a_fresh : MKVFile :=
  MKVFile_init "/m" "a.mkv" [("1", "eng"); ("2", "jpn")] [("3", "eng"); ("4", "fre")].

Definition solo_fresh : MKVFile :=
  MKVFile_init "/m" "solo.mkv" [("1", "eng")] [].

Definition mute_fresh : MKVFile :=
  MKVFile_init "/m" "mute.mkv" [] [].

Definition state_of (d : list (string * MKVFile)) : State :=
  mkState disk [] d None None.

End Sample.

(** ** Facts about strings and paths *)

Lemma string_app_cons (x : ascii) (a b : string) :
  String x a +:+ b = String x (a +:+ b).
Proof. reflexivity. Qed.

Lemma string_length_app (a b : string) :
  String.length (a +:+ b) = (String.length a + String.length b)%nat.
Proof.
  induction a as [|c a IH]; [done|].
  rewrite string_app_cons. simpl. by rewrite IH.
Qed.

Lemma string_app_assoc (a b c : string) : (a +:+ b) +:+ c = a +:+ (b +:+ c).
Proof.
  induction a as [|x a IH]; [done|].
  rewrite !string_app_cons. by rewrite IH.
Qed.


Lemma count_char_app c (a b : string) :
  count_char c (a +:+ b) = (count_char c a + count_char c b)%nat.
Proof.
  induction a as [|c' a IH]; [done|].
  rewrite string_app_cons. simpl. rewrite IH. lia.
Qed.


Lemma join_cases (a b : string) :
  (Str.startswith "/" b = true ∧ join a b = b) ∨
  (Str.startswith "/" b = false ∧ join a b = dir_prefix a +:+ b).
Proof.
  unfold join, dir_prefix. destruct (Str.startswith "/" b); [by left | right].
  split; [done|]. destruct (negb (Str.truthy a) || Str.endswith "/" a); [done|].
  by rewrite string_app_assoc.
Qed.

Lemma join_old (a f : string) : join a ("old" +:+ f) = dir_prefix a +:+ "old" +:+ f.
Proof. destruct (join_cases a ("old" +:+ f)) as [[H _]|[_ H]]; [discriminate | done]. Qed.

Lemma backup_ne_path (a f : string) : join a ("old" +:+ f) ≠ join a f.
Proof.
  rewrite join_old. intros E. apply (f_equal (count_char "o")) in E.
  destruct (join_cases a f) as [[_ Hj]|[_ Hj]]; rewrite Hj in E;
    rewrite !count_char_app in E; simpl in E; lia.
Qed.

Lemma backup_ne_temp (a f : string) : join a ("old" +:+ f) ≠ join a f +:+ ".temp".
Proof.
  rewrite join_old. intros E. apply (f_equal (count_char "o")) in E.
  destruct (join_cases a f) as [[_ Hj]|[_ Hj]]; rewrite Hj in E;
    rewrite !count_char_app in E; simpl in E; lia.
Qed.

Lemma temp_ne_path (p : string) : p +:+ ".temp" ≠ p.
Proof.
  intros E. apply (f_equal String.length) in E.
  rewrite string_length_app in E. simpl in E. lia.
Qed.

Lemma startswith_temp (f : string) :
  Str.startswith "/" (f +:+ ".temp") = Str.startswith "/" f.
Proof. destruct f as [|c f]; [done|]. by rewrite string_app_cons. Qed.

Lemma join_temp (a f : string) : join a f +:+ ".temp" = join a (f +:+ ".temp").
Proof.
  unfold join. rewrite startswith_temp.
  destruct (Str.startswith "/" f); [done|].
  destruct (negb (Str.truthy a) || Str.endswith "/" a); by rewrite !string_app_assoc.
Qed.

(** ** The final loop, one file at a time *)

Section Process.

Variable windows : bool.
Variable run_process : list string -> FS -> Z * string * FS.


Lemma has_work_test (rec : MKVFile) :
  has_work rec →
  bool_decide (audio_args rec = []) && bool_decide (subtitle_args rec = []) = false.
Proof.
  intros [H|H]; apply andb_false_iff; [left | right]; by apply bool_decide_eq_false.
Qed.

Lemma process_no_work key rec st :
  audio_args rec = [] → subtitle_args rec = [] →
  process windows run_process key rec st =
    (Ok tt,
     mkState (fs st) (trace st ++ [Log ("[" +:+ filename rec +:+ "] No work to be done")])
       (file_to_tracks st) (content st) (path st)).
Proof.
  intros Ha Hs. unfold process. rewrite Ha, Hs. reflexivity.
Qed.

(** [popen] when the process's behaviour on the current file system is
    known. *)
Lemma popen_eq cmd st rc out f1 :
  run_process cmd (fs st) = (rc, out, f1) →
  popen run_process cmd st =
    (Ok (rc, out),
     mkState f1 (trace st ++ [Popen cmd]) (file_to_tracks st) (content st) (path st)).
Proof.
  intros Hrun. unfold popen, bind, emit, get_fs, put_fs, ret. simpl.
  by rewrite Hrun.
Qed.

(** [process] up to the return of the remux process. *)
Lemma process_until_popen key rec st rc out f1 :
  has_work rec →
  run_process (remux_cmd rec) (fs st) = (rc, out, f1) →
  process windows run_process key rec st =
    (if negb (rc =? 0)%Z then
       emit (Log "Failed") ;; raise (Exception out)
     else
       emit (Log "Success") ;;
       os_rename windows (join (root rec) (filename rec)) (backup_path rec) ;;
       os_rename windows (join (root rec) (filename rec) +:+ ".temp")
         (join (root rec) (filename rec)))
    (mkState f1
       (trace st ++ [Log ("[" +:+ filename rec +:+ "] Processing ..."); Popen (remux_cmd rec)])
       (file_to_tracks st) (content st) (Some (join (root rec) (filename rec)))).
Proof.
  intros Hw Hrun. unfold process. rewrite (has_work_test _ Hw).
  unfold bind at 1 2 3. unfold store_path, emit at 1.
  change ([MKVMERGE; "-o"; join (root rec) (filename rec) +:+ ".temp"] ++
          audio_args rec ++ subtitle_args rec ++ [join (root rec) (filename rec)])
    with (remux_cmd rec).
  erewrite popen_eq by exact Hrun. simpl.
  by rewrite <- app_assoc.
Qed.

Lemma process_remux_failed key rec st rc out f1 :
  has_work rec →
  run_process (remux_cmd rec) (fs st) = (rc, out, f1) →
  rc ≠ 0%Z →
  process windows run_process key rec st =
    (Raise (Exception out),
     mkState f1
       (trace st ++ [Log ("[" +:+ filename rec +:+ "] Processing ...");
                     Popen (remux_cmd rec); Log "Failed"])
       (file_to_tracks st) (content st) (Some (join (root rec) (filename rec)))).
Proof.
  intros Hw Hrun Hrc. rewrite (process_until_popen _ _ _ _ _ _ Hw Hrun).
  apply Z.eqb_neq in Hrc. rewrite Hrc. simpl.
  unfold bind, emit, raise. simpl. by rewrite <- app_assoc.
Qed.

(** [os.rename] when it goes through. *)
Lemma os_rename_ok src dst st c :
  fs st !! src = Some c →
  (windows = true → fs st !! dst = None) →
  os_rename windows src dst st =
    (Ok tt,
     mkState (<[dst := c]> (delete src (fs st))) (trace st ++ [Rename src dst])
       (file_to_tracks st) (content st) (path st)).
Proof.
  intros Hsrc Hdst. unfold os_rename, bind, emit, get_fs, put_fs. simpl.
  rewrite Hsrc. destruct windows; simpl; [|done].
  rewrite Hdst by done. by rewrite bool_decide_eq_false_2 by (by intros [? ?]).
Qed.

Lemma os_rename_missing src dst st :
  fs st !! src = None →
  os_rename windows src dst st =
    (Raise (FileNotFoundError src),
     mkState (fs st) (trace st ++ [Rename src dst]) (file_to_tracks st) (content st) (path st)).
Proof.
  intros Hsrc. unfold os_rename, bind, emit, get_fs. simpl. by rewrite Hsrc.
Qed.

Lemma os_rename_exists src dst st c :
  fs st !! src = Some c → windows = true → is_Some (fs st !! dst) →
  os_rename windows src dst st =
    (Raise (FileExistsError dst),
     mkState (fs st) (trace st ++ [Rename src dst]) (file_to_tracks st) (content st) (path st)).
Proof.
  intros Hsrc -> Hdst. unfold os_rename, bind, emit, get_fs. simpl.
  rewrite Hsrc. by rewrite bool_decide_eq_true_2.
Qed.

(** The round of the final loop for a file with work, case by case. *)
Lemma process_cases key rec st rc out f1 :
  has_work rec →
  run_process (remux_cmd rec) (fs st) = (rc, out, f1) →
  let p := join (root rec) (filename rec) in
  let started := [Log ("[" +:+ filename rec +:+ "] Processing ..."); Popen (remux_cmd rec)] in
  let first := Rename p (backup_path rec) in
  let second := Rename (p +:+ ".temp") p in
  let after f evs :=
    mkState f (trace st ++ started ++ evs) (file_to_tracks st) (content st) (Some p) in
  process windows run_process key rec st =
    match ending windows rec rc f1 with
    | RemuxFailed => (Raise (Exception out), after f1 [Log "Failed"])
    | OriginalMissing => (Raise (FileNotFoundError p), after f1 [Log "Success"; first])
    | BackupExists =>
        (Raise (FileExistsError (backup_path rec)), after f1 [Log "Success"; first])
    | OutputMissing old =>
        (Raise (FileNotFoundError (p +:+ ".temp")),
         after (<[backup_path rec := old]> (delete p f1)) [Log "Success"; first; second])
    | Committed old new =>
        (Ok tt,
         after (<[p := new]> (delete (p +:+ ".temp") (<[backup_path rec := old]> (delete p f1))))
           [Log "Success"; first; second])
    end.
Proof.
  intros Hw Hrun p started first second after.
  rewrite (process_until_popen _ _ _ _ _ _ Hw Hrun). unfold ending. fold p.
  destruct (negb (rc =? 0)%Z).
  { unfold bind, emit, raise, after, started. simpl. by rewrite <- !app_assoc. }
  unfold bind at 1 2. unfold emit at 1.
  destruct (f1 !! p) as [old|] eqn:Hold.
  2:{ rewrite os_rename_missing by done. unfold after, started. simpl.
      by rewrite <- !app_assoc. }
  destruct (windows && bool_decide (is_Some (f1 !! backup_path rec))) eqn:Hwin.
  { apply andb_true_iff in Hwin as [Hwin Hbak]. apply bool_decide_eq_true in Hbak.
    erewrite os_rename_exists by done. unfold after, started. simpl.
    by rewrite <- !app_assoc. }
  erewrite os_rename_ok; [| exact Hold |].
  2:{ intros ->. simpl in Hwin. apply bool_decide_eq_false in Hwin.
      simpl. by apply eq_None_not_Some. }
  assert (Htemp : ∀ f : FS, (<[backup_path rec := old]> (delete p f)) !! (p +:+ ".temp")
                       = f !! (p +:+ ".temp")).
  { intros f. rewrite lookup_insert_ne by apply backup_ne_temp.
    apply lookup_delete_ne. intros E. by apply (temp_ne_path p). }
  destruct (f1 !! (p +:+ ".temp")) as [new|] eqn:Hnew.
  - erewrite os_rename_ok; simpl.
    + unfold after, started. simpl. by rewrite <- !app_assoc.
    + by rewrite Htemp.
    + intros _. rewrite lookup_insert_ne by apply backup_ne_path.
      apply lookup_delete_eq.
  - rewrite os_rename_missing by (simpl; by rewrite Htemp).
    unfold after, started. simpl. by rewrite <- !app_assoc.
Qed.

End Process.

(** ** Loops *)

Lemma for_each_app {A} (xs ys : list A) (body : A → Py unit) (st : State) :
  for_each (xs ++ ys) body st =
    match for_each xs body st with
    | (Ok _, st1) => for_each ys body st1
    | (Raise e, st1) => (Raise e, st1)
    end.
Proof.
  revert st. induction xs as [|x xs IH]; intros st; simpl; [done|].
  unfold bind. destruct (body x st) as [[[]|e] st1]; [apply IH | done].
Qed.

Lemma for_each_raises {A} (x : A) (xs : list A) (body : A → Py unit) st e st1 :
  body x st = (Raise e, st1) → for_each (x :: xs) body st = (Raise e, st1).
Proof. intros H. simpl. unfold bind. by rewrite H. Qed.

Module DictFacts.

Lemma iter_unfold n used pos body st :
  length (file_to_tracks st) = used →
  Dict.iter (S n) used pos body st =
    match file_to_tracks st !! pos with
    | Some (k, rec) => (body k rec ;; Dict.iter n used (S pos) body) st
    | None => (Ok tt, st)
    end.
Proof. intros H. simpl. by rewrite H, Nat.eqb_refl. Qed.

Lemma iter_changed_size n used pos body st :
  length (file_to_tracks st) ≠ used →
  Dict.iter n used pos body st =
    (Raise (RuntimeError "dictionary changed size during iteration"), st).
Proof.
  intros H. apply Nat.eqb_neq in H. destruct n; simpl; by rewrite H.
Qed.

(** Rounds that do nothing leave the loop where it started. *)
Lemma iter_noop n : ∀ used pos body st,
  length (file_to_tracks st) = used →
  (∀ i k rec, pos ≤ i < pos + n → file_to_tracks st !! i = Some (k, rec) →
              body k rec st = (Ok tt, st)) →
  Dict.iter n used pos body st = (Ok tt, st).
Proof.
  induction n as [|n IH]; intros used pos body st Hlen Hbody.
  - simpl. by rewrite Hlen, Nat.eqb_refl.
  - rewrite iter_unfold by done.
    destruct (file_to_tracks st !! pos) as [[k rec]|] eqn:Hpos; [|done].
    unfold bind. rewrite (Hbody pos k rec) by (done || lia).
    apply IH; [done|]. intros i k' rec' Hi. apply Hbody. lia.
Qed.

(** The first [a] rounds, then the rest. *)
Lemma iter_split a : ∀ b used pos body st,
  Dict.iter (a + b) used pos body st =
    match Dict.iter a used pos body st with
    | (Ok _, st1) => Dict.iter b used (pos + a) body st1
    | (Raise e, st1) => (Raise e, st1)
    end.
Proof.
  induction a as [|a IH]; intros b used pos body st.
  - simpl. destruct (negb (length (file_to_tracks st) =? used)%nat) eqn:Hsz.
    + apply negb_true_iff, Nat.eqb_neq in Hsz. by apply iter_changed_size.
    + by rewrite Nat.add_0_r.
  - destruct (decide (length (file_to_tracks st) = used)) as [Hlen|Hlen].
    + change (S a + b) with (S (a + b)). rewrite !iter_unfold by done.
      destruct (file_to_tracks st !! pos) as [[k rec]|] eqn:Hpos.
      * unfold bind. destruct (body k rec st) as [[[]|e] st1]; [|done].
        rewrite IH. by replace (pos + S a) with (S pos + a) by lia.
      * destruct b as [|b]; simpl; rewrite Hlen, Nat.eqb_refl; simpl; [done|].
        rewrite (lookup_ge_None_2 _ (pos + S a)); [done|].
        apply lookup_ge_None in Hpos. lia.
    + by rewrite !iter_changed_size by done.
Qed.

Lemma del_length k v i (d : list (string * MKVFile)) :
  d !! i = Some (k, v) → S (length (Dict.del k d)) = length d.
Proof.
  revert i. induction d as [|[k' v'] d IH]; intros i Hi; [done|].
  simpl. case_bool_decide as Hk; [done|].
  destruct i as [|i]; simpl in *; [congruence|].
  by rewrite (IH i).
Qed.

(** A round that changes the size of the dictionary is the last one: the
    next request for an item raises. *)
Lemma iter_resized n used pos body st k rec st1 :
  length (file_to_tracks st) = used →
  file_to_tracks st !! pos = Some (k, rec) →
  body k rec st = (Ok tt, st1) →
  length (file_to_tracks st1) ≠ used →
  Dict.iter (S n) used pos body st =
    (Raise (RuntimeError "dictionary changed size during iteration"), st1).
Proof.
  intros Hlen Hpos Hbody Hsz. rewrite iter_unfold, Hpos by done.
  unfold bind. rewrite Hbody. by apply iter_changed_size.
Qed.

(** A round that raises ends the loop. *)
Lemma iter_raises n used pos body st k rec e st1 :
  length (file_to_tracks st) = used →
  file_to_tracks st !! pos = Some (k, rec) →
  body k rec st = (Raise e, st1) →
  Dict.iter (S n) used pos body st = (Raise e, st1).
Proof.
  intros Hlen Hpos Hbody. rewrite iter_unfold, Hpos by done.
  unfold bind. by rewrite Hbody.
Qed.

End DictFacts.

(** ** The eligibility checks

    [_audio_check] and [_subtitle_check] return the dictionary exactly when
    there is nothing to delete.  The first deletion changes the size of the
    dictionary under the iterator, and the next round raises. *)

Section Checks.

Ltac check_ok few :=
  let H := fresh in
  let Hlt := fresh in
  intros H; unfold Dict.for_items, bind;
  rewrite DictFacts.iter_noop; [done | done |];
  intros i k rec _ Hi;
  apply list_find_None in H;
  rewrite Forall_lookup in H; specialize (H i (k, rec) Hi);
  unfold few in H; simpl in H;
  destruct (length _ <? 2)%nat eqn:Hlt; [apply Nat.ltb_lt in Hlt; lia | done].

Lemma audio_check_ok st :
  list_find few_audio (file_to_tracks st) = None →
  _audio_check st = (Ok (file_to_tracks st), st).
Proof. unfold _audio_check. check_ok few_audio. Qed.

Lemma subtitle_check_ok st :
  list_find few_subtitle (file_to_tracks st) = None →
  _subtitle_check st = (Ok (file_to_tracks st), st).
Proof. unfold _subtitle_check. check_ok few_subtitle. Qed.

Ltac check_raises few :=
  let H := fresh in
  intros H; apply list_find_Some in H as (Hi & Hfew & Hbefore);
  unfold Dict.for_items, bind;
  match goal with
  | |- context [Dict.iter ?n ?n 0 ?body ?st] =>
      let i := match type of Hi with _ !! ?i = _ => i end in
      assert (i < n) as Hlt by (by apply lookup_lt_Some in Hi);
      replace (Dict.iter n n 0 body st)
        with (Dict.iter (i + S (n - S i)) n 0 body st) by (f_equal; lia);
      rewrite DictFacts.iter_split, DictFacts.iter_noop; [| done |]
  end;
  [ erewrite DictFacts.iter_resized; [done | done | exact Hi | |];
    [ unfold few in Hfew; simpl in Hfew;
      apply Nat.ltb_lt in Hfew; rewrite Hfew; reflexivity
    | simpl; apply DictFacts.del_length in Hi; lia ]
  | intros j k' rec' Hj Hj';
    specialize (Hbefore j (k', rec') Hj' ltac:(lia));
    unfold few in Hbefore; simpl in Hbefore;
    destruct (length _ <? 2)%nat eqn:Hc; [apply Nat.ltb_lt in Hc; lia | done] ].

Lemma audio_check_raises st i k rec :
  list_find few_audio (file_to_tracks st) = Some (i, (k, rec)) →
  _audio_check st =
    (Raise (RuntimeError "dictionary changed size during iteration"),
     mkState (fs st)
       (trace st ++ [Log ("[" +:+ filename rec +:+ "] At least 1 audio track required")])
       (Dict.del k (file_to_tracks st)) (content st) (path st)).
Proof. unfold _audio_check. check_raises few_audio. Qed.

Lemma subtitle_check_raises st i k rec :
  list_find few_subtitle (file_to_tracks st) = Some (i, (k, rec)) →
  _subtitle_check st =
    (Raise (RuntimeError "dictionary changed size during iteration"),
     mkState (fs st)
       (trace st ++ [Log ("[" +:+ filename rec +:+ "] At least 1 subtitle track required")])
       (Dict.del k (file_to_tracks st)) (content st) (path st)).
Proof. unfold _subtitle_check. check_raises few_subtitle. Qed.

End Checks.

(** ** [_build_args], one file at a time *)

Section BuildArgs.

Variable args : Args.

Lemma contains_audio_audio : Str.contains "audio" "audio" = true.
Proof. reflexivity. Qed.

Lemma contains_language_audio : Str.contains "language" "audio" = false.
Proof. reflexivity. Qed.

Lemma contains_audio_subtitle : Str.contains "audio" "subtitle" = false.
Proof. reflexivity. Qed.

Lemma contains_language_subtitle : Str.contains "language" "subtitle" = false.
Proof. reflexivity. Qed.

(** For ['subtitle'] neither test of lines 135-140 holds, [field] is never
    assigned, and line 142 raises. *)
Lemma build_args_body_subtitle key rec st :
  build_args_body args "subtitle" key rec st =
    (Raise (UnboundLocalError "field"),
     mkState (fs st)
       (trace st ++ [Log ("[" +:+ filename rec +:+ "] Building CLI arguments for subtitle tracks")])
       (file_to_tracks st) (content st) (path st)).
Proof.
  unfold build_args_body.
  rewrite contains_audio_subtitle, contains_language_subtitle. reflexivity.
Qed.

Lemma build_args_subtitle_raises st k rec d :
  file_to_tracks st = (k, rec) :: d →
  _build_args args "subtitle" st =
    (Raise (UnboundLocalError "field"),
     mkState (fs st)
       (trace st ++ [Log ("[" +:+ filename rec +:+ "] Building CLI arguments for subtitle tracks")])
       (file_to_tracks st) (content st) (path st)).
Proof.
  intros Hd. unfold _build_args, Dict.for_items. rewrite Hd at 1 2. simpl length.
  erewrite DictFacts.iter_raises; [done | by rewrite Hd | by rewrite Hd |].
  apply build_args_body_subtitle.
Qed.

(** On an empty dictionary the loop does not run at all. *)
Lemma build_args_subtitle_empty st :
  file_to_tracks st = [] → _build_args args "subtitle" st = (Ok tt, st).
Proof.
  intros Hd. unfold _build_args, Dict.for_items. rewrite Hd. simpl.
  by rewrite Hd.
Qed.

(** For ['audio']: the start of the body, up to the three-way test. *)
Lemma build_args_body_audio key rec st :
  build_args_body args "audio" key rec st =
    (let filterlang := List.filter (lang_eqb (audio_language args)) (audio rec) in
     if truthy (audio_language args) && (length filterlang =? 0)%nat then
       p <- load_path ;;
       emit (Log ("[" +:+ filename rec +:+ "] No audio tracks with language "
                  +:+ default "None" (audio_language args) +:+ " in " +:+ p))
     else if (1 <? length filterlang)%nat then
       emit (Log ("[" +:+ filename rec +:+ "] More than one audio track matching "
                  +:+ default "None" (audio_language args) +:+ ". Skipping"))
     else
       let cmd := if (0 <? length filterlang)%nat then keep_args "audio" filterlang else [] in
       Dict.setitem key (set_subtitle_args cmd (set_audio_args cmd rec)))
    (mkState (fs st)
       (trace st ++ [Log ("[" +:+ filename rec +:+ "] Building CLI arguments for audio tracks")])
       (file_to_tracks st) (content st) (path st)).
Proof.
  unfold build_args_body.
  rewrite contains_audio_audio, contains_language_audio. reflexivity.
Qed.

(** Exactly one audio track in the requested language: it is kept and made
    the default track, and the arguments are stored under both attributes. *)
Lemma build_args_audio_unique key rec st i l :
  List.filter (lang_eqb (audio_language args)) (audio rec) = [(i, l)] →
  build_args_body args "audio" key rec st =
    (Ok tt,
     mkState (fs st)
       (trace st ++ [Log ("[" +:+ filename rec +:+ "] Building CLI arguments for audio tracks")])
       (Dict.set key
          (mkMKVFile (filename rec) (audio rec) (subtitle rec) (root rec)
             ["--audio-tracks"; i; "--default-track"; i +:+ ":1"]
             ["--audio-tracks"; i; "--default-track"; i +:+ ":1"])
          (file_to_tracks st))
       (content st) (path st)).
Proof.
  intros Hf. rewrite build_args_body_audio. simpl. rewrite Hf. simpl.
  by rewrite andb_false_r.
Qed.

(** More than one: the file is reported and its record left alone. *)
Lemma build_args_audio_ambiguous key rec st :
  1 < length (List.filter (lang_eqb (audio_language args)) (audio rec)) →
  build_args_body args "audio" key rec st =
    (Ok tt,
     mkState (fs st)
       (trace st ++
          [Log ("[" +:+ filename rec +:+ "] Building CLI arguments for audio tracks");
           Log ("[" +:+ filename rec +:+ "] More than one audio track matching "
                +:+ default "None" (audio_language args) +:+ ". Skipping")])
       (file_to_tracks st) (content st) (path st)).
Proof.
  intros Hf. rewrite build_args_body_audio. simpl.
  destruct (length _) as [|[|n]] eqn:Hn; [lia | lia |].
  rewrite andb_false_r. simpl. unfold emit. simpl. by rewrite <- app_assoc.
Qed.

(** None: the report of line 145 reads the module global [path]; while it is
    unbound the report itself raises. *)
Lemma build_args_audio_no_match key rec st :
  truthy (audio_language args) = true →
  List.filter (lang_eqb (audio_language args)) (audio rec) = [] →
  path st = None →
  build_args_body args "audio" key rec st =
    (Raise (NameError "path"),
     mkState (fs st)
       (trace st ++ [Log ("[" +:+ filename rec +:+ "] Building CLI arguments for audio tracks")])
       (file_to_tracks st) (content st) (path st)).
Proof.
  intros Ht Hf Hp. rewrite build_args_body_audio. simpl. rewrite Hf, Ht. simpl.
  unfold bind, load_path. simpl. by rewrite Hp.
Qed.

End BuildArgs.

(** ** The module global [path] before the final loop

    [path] is first assigned on line 218, inside the final loop.  Nothing
    that runs before the loop binds it. *)

Create HintDb keeps_path.

Lemma keeps_path_ret {A} (a : A) : keeps_path (ret a).
Proof. by intros st. Qed.

Lemma keeps_path_raise {A} e : keeps_path (@raise A e).
Proof. by intros st. Qed.

Lemma keeps_path_bind {A B} (m : Py A) (f : A → Py B) :
  keeps_path m → (∀ a, keeps_path (f a)) → keeps_path (bind m f).
Proof.
  intros Hm Hf st. unfold bind. specialize (Hm st).
  destruct (m st) as [[a|e] st1]; simpl in *; [|done].
  by rewrite Hf.
Qed.

Lemma keeps_path_emit e : keeps_path (emit e).
Proof. by intros st. Qed.

Lemma keeps_path_get_dict : keeps_path get_dict.
Proof. by intros st. Qed.

Lemma keeps_path_put_dict d : keeps_path (put_dict d).
Proof. by intros st. Qed.

Lemma keeps_path_get_fs : keeps_path get_fs.
Proof. by intros st. Qed.

Lemma keeps_path_put_fs f : keeps_path (put_fs f).
Proof. by intros st. Qed.

Lemma keeps_path_load_content : keeps_path load_content.
Proof. intros st. unfold load_content. by destruct (content st). Qed.

Lemma keeps_path_store_content c : keeps_path (store_content c).
Proof. by intros st. Qed.

Lemma keeps_path_load_path : keeps_path load_path.
Proof. intros st. unfold load_path. by destruct (path st) eqn:E. Qed.

Lemma keeps_path_load_local {A} name (v : option A) : keeps_path (load_local name v).
Proof. intros st. by destruct v. Qed.

Lemma keeps_path_for_each {A} (xs : list A) body :
  (∀ x, keeps_path (body x)) → keeps_path (for_each xs body).
Proof.
  intros Hb. induction xs as [|x xs IH]; simpl.
  - apply keeps_path_ret.
  - apply keeps_path_bind; auto.
Qed.

Lemma keeps_path_iter n used pos body :
  (∀ k rec, keeps_path (body k rec)) → keeps_path (Dict.iter n used pos body).
Proof.
  intros Hb. revert pos. induction n as [|n IH]; intros pos st; simpl.
  - by destruct (negb _).
  - destruct (negb _); [done|].
    destruct (file_to_tracks st !! pos) as [[k rec]|]; [|done].
    by apply keeps_path_bind.
Qed.

Lemma keeps_path_for_items body :
  (∀ k rec, keeps_path (body k rec)) → keeps_path (Dict.for_items body).
Proof. intros Hb st. unfold Dict.for_items. by apply keeps_path_iter. Qed.

#[local] Hint Resolve keeps_path_ret keeps_path_raise keeps_path_emit keeps_path_get_dict
  keeps_path_put_dict keeps_path_get_fs keeps_path_put_fs keeps_path_load_content
  keeps_path_store_content keeps_path_load_path keeps_path_load_local : keeps_path.

Ltac keeps_path :=
  repeat first
    [ progress intros
    | apply keeps_path_bind
    | apply keeps_path_for_each
    | apply keeps_path_for_items
    | solve [auto with keeps_path]
    | match goal with
      | |- keeps_path (if ?b then _ else _) => destruct b
      | |- keeps_path (match ?x with _ => _ end) => destruct x
      | |- keeps_path (let _ := _ in _) => cbv zeta
      end ].

Section Prepare.

Variable args : Args.
Variable os_listdir : string → FS → option (list string).
Variable md5_hexdigest : string → string.
Variable run_process : list string → FS → Z * string * FS.

Lemma keeps_path_popen cmd : keeps_path (popen run_process cmd).
Proof.
  unfold popen. apply keeps_path_bind; [auto with keeps_path | intros _].
  apply keeps_path_bind; [auto with keeps_path | intros f].
  destruct (run_process cmd f) as [[rc out] f']. keeps_path.
Qed.

Lemma keeps_path_get_file_list r : keeps_path (_get_file_list os_listdir r).
Proof. unfold _get_file_list. keeps_path. Qed.

Lemma keeps_path_identify_file name :
  keeps_path (identify_file args md5_hexdigest run_process name).
Proof.
  unfold identify_file, _mkvmerge_identify, _extract_tracks, Dict.setitem.
  apply keeps_path_bind.
  - apply keeps_path_bind; [auto with keeps_path | intros _].
    apply keeps_path_bind; [apply keeps_path_popen | keeps_path].
  - keeps_path.
Qed.

Lemma keeps_path_build_args langtype : keeps_path (_build_args args langtype).
Proof.
  unfold _build_args, build_args_body, Dict.setitem. keeps_path.
Qed.

Lemma keeps_path_select : keeps_path (select args).
Proof.
  unfold select, _list_tracks, _audio_check, _subtitle_check, print_track, Dict.delitem.
  pose proof keeps_path_build_args. keeps_path.
Qed.

(** X18.  Nothing that runs before the final loop assigns the module global
    [path]: whatever the command line, the directory and the tools, and
    however the preparation ends, [path] is afterwards what it was, so a
    script that starts with [path] unbound reaches the final loop (or stops
    before it) with [path] unbound. *)
Lemma keeps_path_prepare :
  keeps_path (prepare args os_listdir md5_hexdigest run_process).
Proof.
  unfold prepare.
  apply keeps_path_bind; [apply keeps_path_get_file_list | intros files].
  apply keeps_path_bind; [| intros _; apply keeps_path_select].
  apply keeps_path_for_each, keeps_path_identify_file.
Qed.

Lemma bind_assoc {A B C} (m : Py A) (f : A → Py B) (g : B → Py C) st :
  bind (bind m f) g st = bind m (λ a, bind (f a) g) st.
Proof. unfold bind. by destruct (m st) as [[a|e] st1]. Qed.

Lemma bind_ext {A B} (m : Py A) (f g : A → Py B) st :
  (∀ a st1, f a st1 = g a st1) → bind m f st = bind m g st.
Proof. intros H. unfold bind. by destruct (m st) as [[a|e] st1]. Qed.

(** The script is the preparation followed by the final loop. *)
Lemma main_prepare windows st :
  main args windows os_listdir md5_hexdigest run_process st =
    (prepare args os_listdir md5_hexdigest run_process ;;
     Dict.for_items (process windows run_process)) st.
Proof.
  unfold main, prepare. rewrite bind_assoc.
  apply bind_ext. intros files st1. by rewrite bind_assoc.
Qed.

End Prepare.

(** ** Failures during a run *)

Section Run.

Variable args : Args.
Variable windows : bool.
Variable os_listdir : string → FS → option (list string).
Variable md5_hexdigest : string → string.
Variable run_process : list string → FS → Z * string * FS.

Local Abbreviation main' := (main args windows os_listdir md5_hexdigest run_process).
Local Abbreviation identify_file' := (identify_file args md5_hexdigest run_process).
Local Abbreviation process' := (process windows run_process).

Lemma get_file_list_listed r st names :
  os_listdir r (fs st) = Some names →
  _get_file_list os_listdir r st =
    (Ok (mkv_files (fs st) r names),
     mkState (fs st) (trace st ++ [Log ("Processing " +:+ r)])
       (file_to_tracks st) (content st) (path st)).
Proof.
  intros H. unfold _get_file_list, bind, emit, get_fs. simpl. by rewrite H.
Qed.

Lemma get_file_list_failed r st :
  os_listdir r (fs st) = None →
  _get_file_list os_listdir r st =
    (Raise (OSError r),
     mkState (fs st) (trace st ++ [Log ("Processing " +:+ r)])
       (file_to_tracks st) (content st) (path st)).
Proof.
  intros H. unfold _get_file_list, bind, emit, get_fs. simpl. by rewrite H.
Qed.

(** An identification that exits with a non-zero status raises. *)
Lemma identify_file_failed name st rc out f1 :
  run_process (identify_cmd (input_directory args) name) (fs st) = (rc, out, f1) →
  rc ≠ 0%Z →
  identify_file' name st =
    (Raise (Exception out),
     mkState f1
       (trace st ++ [Log ("[" +:+ name +:+ "] Identifying");
                     Popen (identify_cmd (input_directory args) name);
                     Log ("[" +:+ name +:+ "] mkvmerge failed to identify the file")])
       (file_to_tracks st) (content st) (path st)).
Proof.
  intros Hrun Hrc. unfold identify_file, _mkvmerge_identify.
  unfold bind at 1 2 3. unfold emit at 1.
  erewrite popen_eq by exact Hrun. simpl.
  apply Z.eqb_neq in Hrc. rewrite Hrc. simpl.
  unfold bind, emit, raise. simpl. by rewrite <- !app_assoc.
Qed.

(** A loop over the dictionary that ends normally saw the size it started
    with at its last test. *)
Lemma iter_ok_length n : ∀ used pos body st st1,
  Dict.iter n used pos body st = (Ok tt, st1) → length (file_to_tracks st1) = used.
Proof.
  induction n as [|n IH]; intros used pos body st st1; simpl.
  - destruct (negb _) eqn:Hsz; [done|]. intros [= <-].
    by apply negb_false_iff, Nat.eqb_eq in Hsz.
  - destruct (negb _) eqn:Hsz; [done|].
    apply negb_false_iff, Nat.eqb_eq in Hsz.
    destruct (file_to_tracks st !! pos) as [[k rec]|]; [| by intros [= <-]].
    unfold bind. destruct (body k rec st) as [[[]|e] st2]; [apply IH | done].
Qed.

Lemma listing_failure_aborts st :
  os_listdir (input_directory args) (fs st) = None →
  main' st =
    (Raise (OSError (input_directory args)),
     mkState (fs st) (trace st ++ [Log ("Processing " +:+ input_directory args)])
       (file_to_tracks st) (content st) (path st)).
Proof.
  intros H. unfold main, bind. by rewrite get_file_list_failed.
Qed.

Lemma identification_failure_aborts st names pre name post st1 rc out f1 :
  os_listdir (input_directory args) (fs st) = Some names →
  mkv_files (fs st) (input_directory args) names = pre ++ (name :: post) →
  for_each pre identify_file'
    (mkState (fs st) (trace st ++ [Log ("Processing " +:+ input_directory args)])
       (file_to_tracks st) (content st) (path st)) = (Ok tt, st1) →
  run_process (identify_cmd (input_directory args) name) (fs st1) = (rc, out, f1) →
  rc ≠ 0%Z →
  main' st =
    (Raise (Exception out),
     mkState f1
       (trace st1 ++ [Log ("[" +:+ name +:+ "] Identifying");
                      Popen (identify_cmd (input_directory args) name);
                      Log ("[" +:+ name +:+ "] mkvmerge failed to identify the file")])
       (file_to_tracks st1) (content st1) (path st1)).
Proof.
  intros Hls Hfiles Hpre Hrun Hrc. unfold main. unfold bind at 1.
  rewrite (get_file_list_listed _ _ _ Hls), Hfiles. unfold bind at 1.
  rewrite for_each_app, Hpre.
  by rewrite (for_each_raises _ _ _ _ _ _ (identify_file_failed _ _ _ _ _ Hrun Hrc)).
Qed.

Lemma remux_failure_aborts st st1 a st2 k rec rc out f1 :
  prepare args os_listdir md5_hexdigest run_process st = (Ok tt, st1) →
  Dict.iter a (length (file_to_tracks st1)) 0 process' st1 = (Ok tt, st2) →
  file_to_tracks st2 !! a = Some (k, rec) →
  has_work rec →
  run_process (remux_cmd rec) (fs st2) = (rc, out, f1) →
  rc ≠ 0%Z →
  main' st =
    (Raise (Exception out),
     mkState f1
       (trace st2 ++ [Log ("[" +:+ filename rec +:+ "] Processing ...");
                      Popen (remux_cmd rec); Log "Failed"])
       (file_to_tracks st2) (content st2) (Some (join (root rec) (filename rec)))).
Proof.
  intros Hprep Hiter Hk Hw Hrun Hrc. rewrite main_prepare. unfold bind.
  rewrite Hprep. unfold Dict.for_items.
  pose proof (iter_ok_length _ _ _ _ _ _ Hiter) as Hlen.
  pose proof (lookup_lt_Some _ _ _ Hk) as Hlt. rewrite Hlen in Hlt.
  set (n := length (file_to_tracks st1)) in *.
  replace (Dict.iter n n 0 process' st1)
    with (Dict.iter (a + S (n - S a)) n 0 process' st1) by (f_equal; lia).
  rewrite DictFacts.iter_split, Hiter. cbv beta iota. change (0 + a) with a.
  erewrite DictFacts.iter_raises; [done | done | exact Hk |].
  by eapply process_remux_failed.
Qed.

End Run.

(** ** The parser and the text it is given *)

Lemma extract_tracks_content mkvmerge_output name st c :
  content st = Some c →
  _extract_tracks mkvmerge_output name st =
    (Ok (parse_tracks c),
     mkState (fs st)
       (trace st ++
          [Log ("[" +:+ name +:+ "] Extracting tracks");
           Log ("[" +:+ name +:+ "] Found " +:+ pretty (length (parse_tracks c).1)
                +:+ " audio and " +:+ pretty (length (parse_tracks c).2)
                +:+ " subtitle tracks")])
       (file_to_tracks st) (content st) (path st)).
Proof.
  intros Hc. unfold _extract_tracks, bind, emit, load_content, ret. simpl.
  rewrite Hc. simpl. by rewrite <- app_assoc.
Qed.

Lemma extract_tracks_unbound mkvmerge_output name st :
  content st = None →
  _extract_tracks mkvmerge_output name st =
    (Raise (NameError "content"),
     mkState (fs st) (trace st ++ [Log ("[" +:+ name +:+ "] Extracting tracks")])
       (file_to_tracks st) (content st) (path st)).
Proof.
  intros Hc. unfold _extract_tracks, bind, emit, load_content. simpl. by rewrite Hc.
Qed.

Lemma mkvmerge_identify_ok run_process r name st out f1 :
  run_process (identify_cmd r name) (fs st) = (0%Z, out, f1) →
  _mkvmerge_identify run_process r name st =
    (Ok out,
     mkState f1
       (trace st ++ [Log ("[" +:+ name +:+ "] Identifying"); Popen (identify_cmd r name)])
       (file_to_tracks st) (content st) (path st)).
Proof.
  intros Hrun. unfold _mkvmerge_identify. unfold bind at 1 2. unfold emit at 1.
  erewrite popen_eq by exact Hrun. simpl. unfold ret. by rewrite <- app_assoc.
Qed.

(** In the script's one call (line 190) the global and the argument are the
    same text, and the record stored is the parse of it. *)
Lemma identify_file_parses args md5_hexdigest run_process name st out f1 :
  run_process (identify_cmd (input_directory args) name) (fs st) = (0%Z, out, f1) →
  identify_file args md5_hexdigest run_process name st =
    (Ok tt,
     mkState f1
       (trace st ++
          [Log ("[" +:+ name +:+ "] Identifying");
           Popen (identify_cmd (input_directory args) name);
           Log ("[" +:+ name +:+ "] Extracting tracks");
           Log ("[" +:+ name +:+ "] Found " +:+ pretty (length (parse_tracks out).1)
                +:+ " audio and " +:+ pretty (length (parse_tracks out).2)
                +:+ " subtitle tracks")])
       (Dict.set (md5_hexdigest name)
          (MKVFile_init (input_directory args) name (parse_tracks out).1 (parse_tracks out).2)
          (file_to_tracks st))
       (Some out) (path st)).
Proof.
  intros Hrun. unfold identify_file. unfold bind at 1.
  rewrite (mkvmerge_identify_ok _ _ _ _ _ _ Hrun).
  unfold bind at 1. unfold store_content at 1. cbv beta iota.
  unfold bind at 1. erewrite extract_tracks_content by done.
  unfold Dict.setitem, bind, get_dict, put_dict. simpl.
  by rewrite <- !app_assoc.
Qed.


(** C8, as the script has it.  Called with [content] holding the text it is
    given, as in the script's one call, [_extract_tracks] returns the tracks
    parsed from that text, and the only thing it does besides is to log two
    lines, one when it starts and one with the numbers of tracks found.  So
    the inventory depends on the text alone: two such calls on the same text
    return the same inventory, whatever the file name and the rest of the
    state. *)
Theorem extract_tracks_function_of_text (text name1 : string) (st1 : State)
    (name2 : string) (st2 : State) :
  content st1 = Some text →
  content st2 = Some text →
  _extract_tracks text name1 st1 =
    (Ok (parse_tracks text),
     add_events
       [Log ("[" +:+ name1 +:+ "] Extracting tracks");
        Log ("[" +:+ name1 +:+ "] Found " +:+ pretty (length (parse_tracks text).1)
             +:+ " audio and " +:+ pretty (length (parse_tracks text).2)
             +:+ " subtitle tracks")] st1)
  ∧ (_extract_tracks text name1 st1).1 = Ok (parse_tracks text)
  ∧ (_extract_tracks text name2 st2).1 = (_extract_tracks text name1 st1).1.
Proof.
  intros H1 H2.
  rewrite (extract_tracks_content text name1 st1 text H1).
  rewrite (extract_tracks_content text name2 st2 text H2).
  by repeat split.
Qed.

(** ** The final loop: what the specification says of it *)

Section Commit.

Variable windows : bool.
Variable run_process : list string → FS → Z * string * FS.

(** C9.  A file whose audio and subtitle arguments are both empty is
    reported as having no work and skipped: the round of the final loop adds
    one log line and nothing else; no process is spawned, the file system
    and the dictionary stay as they are. *)
Theorem no_work_skips_remux key rec st :
  audio_args rec = [] → subtitle_args rec = [] →
  process windows run_process key rec st =
    (Ok tt,
     mkState (fs st) (trace st ++ [Log ("[" +:+ filename rec +:+ "] No work to be done")])
       (file_to_tracks st) (content st) (path st)).
Proof. apply process_no_work. Qed.

(** C7.  When the remux process exits with a non-zero status, the round
    logs [Failed] and raises; no rename is called, and the file system is
    left as the process left it. *)
Theorem remux_failure_skips_commit key rec st rc out f1 :
  has_work rec →
  run_process (remux_cmd rec) (fs st) = (rc, out, f1) →
  rc ≠ 0%Z →
  let r := process windows run_process key rec st in
  r.1 = Raise (Exception out)
  ∧ trace r.2 = trace st ++ [Log ("[" +:+ filename rec +:+ "] Processing ...");
                             Popen (remux_cmd rec); Log "Failed"]
  ∧ renames_of (drop (length (trace st)) (trace r.2)) = []
  ∧ fs r.2 = f1.
Proof.
  intros Hw Hrun Hrc r. subst r.
  rewrite (process_remux_failed _ _ _ _ _ _ _ _ Hw Hrun Hrc). simpl.
  by rewrite drop_app_length.
Qed.

(** C6.  For a file with work whose remux process has returned.  The round
    ends normally exactly when the process exited with status zero, the
    original and the temporary output exist, and (on Windows) no backup is in
    the way.  When it does, the original is first renamed to
    [old<filename>] in the same directory and then the temporary output is
    renamed onto the original path; afterwards the backup holds the old
    content and the original path the new one.  However the round ends, the
    renames it called are an initial part of that sequence, and the old
    content is still at the original path or at the backup. *)
Theorem commit_two_step_replace key rec st rc out f1 :
  has_work rec →
  run_process (remux_cmd rec) (fs st) = (rc, out, f1) →
  let p := join (root rec) (filename rec) in
  let backup := join (root rec) ("old" +:+ filename rec) in
  let r := process windows run_process key rec st in
  (r.1 = Ok tt ↔
     rc = 0%Z ∧ is_Some (f1 !! p) ∧ is_Some (f1 !! (p +:+ ".temp"))
     ∧ (windows = true → f1 !! backup = None))
  ∧ (r.1 = Ok tt →
       trace r.2 = trace st ++ [Log ("[" +:+ filename rec +:+ "] Processing ...");
                                Popen (remux_cmd rec); Log "Success";
                                Rename p backup; Rename (p +:+ ".temp") p]
       ∧ fs r.2 !! backup = f1 !! p
       ∧ fs r.2 !! p = f1 !! (p +:+ ".temp"))
  ∧ renames_of (drop (length (trace st)) (trace r.2))
      `prefix_of` [(p, backup); (p +:+ ".temp", p)]
  ∧ (∀ old, f1 !! p = Some old → fs r.2 !! p = Some old ∨ fs r.2 !! backup = Some old).
Proof.
  intros Hw Hrun p backup r.
  pose proof (process_cases windows run_process key rec st rc out f1 Hw Hrun) as Hc.
  cbv zeta in Hc. fold p in Hc. change (backup_path rec) with backup in Hc.
  unfold ending in Hc. fold p in Hc. change (backup_path rec) with backup in Hc.
  subst r. rewrite Hc. clear Hc.
  assert (Hbt : ∀ (f : FS) old new,
             (<[p := new]> (delete (p +:+ ".temp") (<[backup := old]> (delete p f))))
               !! backup = Some old).
  { intros f old new. rewrite lookup_insert_ne by (intros E; by apply (backup_ne_path (root rec) (filename rec))).
    rewrite lookup_delete_ne by (intros E; by apply (backup_ne_temp (root rec) (filename rec))).
    apply lookup_insert_eq. }
  destruct (rc =? 0)%Z eqn:Hrc; simpl.
  2:{ apply Z.eqb_neq in Hrc. rewrite drop_app_length. simpl.
      repeat split; try done; [by intros (? & _) | apply prefix_nil | by left]. }
  apply Z.eqb_eq in Hrc. subst rc.
  destruct (f1 !! p) as [old|] eqn:Hold; simpl.
  2:{ rewrite drop_app_length. simpl.
      repeat split; try done; [by intros (_ & [? ?] & _) | by exists [(p +:+ ".temp", p)]]. }
  destruct (windows && bool_decide (is_Some (f1 !! backup))) eqn:Hwin; simpl.
  { apply andb_true_iff in Hwin as [-> Hbak]. apply bool_decide_eq_true in Hbak.
    rewrite drop_app_length. simpl.
    repeat split; try done.
    - intros (_ & _ & _ & Hnone). rewrite Hnone in Hbak by done. by destruct Hbak.
    - by exists [(p +:+ ".temp", p)].
    - intros ? [= <-]. left. exact Hold. }
  assert (Hnb : windows = true → f1 !! backup = None).
  { intros ->. simpl in Hwin. apply bool_decide_eq_false in Hwin.
    by apply eq_None_not_Some. }
  destruct (f1 !! (p +:+ ".temp")) as [new|] eqn:Hnew; simpl; rewrite drop_app_length; simpl.
  - repeat split; try done.
    + by rewrite lookup_insert_eq.
    + intros ? [= <-]. right. apply Hbt.
  - repeat split; try done.
    + by intros (_ & _ & [? ?] & _).
    + intros ? [= <-]. right. apply lookup_insert_eq.
Qed.

(** C10.  For a file with work, the one process the round spawns is
    [mkvmerge -o <path>.temp <audio args> <subtitle args> <path>], where
    [<path>.temp] is the original path with [.temp] appended, a name in the
    directory of the original; a rename onto the original path has that
    [.temp] path as its source, and a round that ends normally has called
    that rename last. *)
Theorem temp_output_path key rec st :
  has_work rec →
  let p := join (root rec) (filename rec) in
  let r := process windows run_process key rec st in
  let evs := drop (length (trace st)) (trace r.2) in
  trace r.2 = trace st ++ evs
  ∧ popens_of evs =
      [[MKVMERGE; "-o"; p +:+ ".temp"] ++ audio_args rec ++ subtitle_args rec ++ [p]]
  ∧ p +:+ ".temp" = join (root rec) (filename rec +:+ ".temp")
  ∧ (∀ src, (src, p) ∈ renames_of evs → src = p +:+ ".temp")
  ∧ (r.1 = Ok tt → last (renames_of evs) = Some (p +:+ ".temp", p)).
Proof.
  intros Hw p r evs.
  destruct (run_process (remux_cmd rec) (fs st)) as [[rc out] f1] eqn:Hrun.
  pose proof (process_cases windows run_process key rec st rc out f1 Hw Hrun) as Hc.
  cbv zeta in Hc. fold p in Hc. subst evs r. rewrite Hc. clear Hc.
  assert (Hne : p ≠ backup_path rec) by (intros E; by apply (backup_ne_path (root rec) (filename rec))).
  destruct (ending windows rec rc f1); simpl; rewrite drop_app_length; simpl;
    (split; [done|]); (split; [done|]); (split; [apply join_temp|]); split; try done.
  - by intros src Hin%elem_of_nil.
  - intros src [=]%list_elem_of_singleton. congruence.
  - intros src [=]%list_elem_of_singleton. congruence.
  - intros src [[=]|[=]%list_elem_of_singleton]%elem_of_cons; congruence.
  - intros src [[=]|[=]%list_elem_of_singleton]%elem_of_cons; congruence.
Qed.

End Commit.

(** C2, as the script has it.  No failure is caught anywhere: a directory
    listing that fails, an identification that exits with a non-zero status
    and a remux that exits with a non-zero status each end the whole run with
    the exception raised at that point.  The state the run ends in is the one
    reached at the failing file; no later file is identified, remuxed or
    renamed. *)
Theorem per_file_failure_aborts_run
    (args : Args) (windows : bool) (os_listdir : string → FS → option (list string))
    (md5_hexdigest : string → string) (run_process : list string → FS → Z * string * FS)
    (st : State) :
  let run := main args windows os_listdir md5_hexdigest run_process in
  let dir := input_directory args in
  let listed := mkState (fs st) (trace st ++ [Log ("Processing " +:+ dir)])
                  (file_to_tracks st) (content st) (path st) in
  (os_listdir dir (fs st) = None → run st = (Raise (OSError dir), listed))
  ∧ (∀ names pre name post st1 rc out f1,
       os_listdir dir (fs st) = Some names →
       mkv_files (fs st) dir names = pre ++ (name :: post) →
       for_each pre (identify_file args md5_hexdigest run_process) listed = (Ok tt, st1) →
       run_process (identify_cmd dir name) (fs st1) = (rc, out, f1) →
       rc ≠ 0%Z →
       run st =
         (Raise (Exception out),
          mkState f1
            (trace st1 ++ [Log ("[" +:+ name +:+ "] Identifying");
                           Popen (identify_cmd dir name);
                           Log ("[" +:+ name +:+ "] mkvmerge failed to identify the file")])
            (file_to_tracks st1) (content st1) (path st1)))
  ∧ (∀ st1 a st2 k rec rc out f1,
       prepare args os_listdir md5_hexdigest run_process st = (Ok tt, st1) →
       Dict.iter a (length (file_to_tracks st1)) 0 (process windows run_process) st1
         = (Ok tt, st2) →
       file_to_tracks st2 !! a = Some (k, rec) →
       has_work rec →
       run_process (remux_cmd rec) (fs st2) = (rc, out, f1) →
       rc ≠ 0%Z →
       run st =
         (Raise (Exception out),
          mkState f1
            (trace st2 ++ [Log ("[" +:+ filename rec +:+ "] Processing ...");
                           Popen (remux_cmd rec); Log "Failed"])
            (file_to_tracks st2) (content st2) (Some (join (root rec) (filename rec))))).
Proof.
  intros run dir listed. split; [|split].
  - apply listing_failure_aborts.
  - intros *. apply identification_failure_aborts.
  - intros *. apply remux_failure_aborts.
Qed.

(** ** The script on the sample directory *)

Section Samples.

Import Sample.

(** C2, as the specification has it, fails: with [broken.mkv] listed before
    [a.mkv], the failed identification of the first ends the run; [a.mkv] is
    never identified. *)
Lemma identification_failure_stops_batch :
  let r := main (mkArgs "/m" (Some "eng") None false) false
             (ls ["broken.mkv"; "a.mkv"]) md5 (tool 0) (initial disk) in
  r.1 = Raise (Exception "Error: not a Matroska file")
  ∧ popens_of (trace r.2) = [identify_cmd "/m" "broken.mkv"]
  ∧ (identify_cmd "/m" "a.mkv" ∉ popens_of (trace r.2))
  ∧ file_to_tracks r.2 = [].
Proof.
  cbv zeta. split; [by vm_compute|]. split; [by vm_compute|]. split; [|by vm_compute].
  replace (popens_of _) with [identify_cmd "/m" "broken.mkv"] by (by vm_compute).
  by intros [=]%list_elem_of_singleton.
Qed.

(** The same run, through the theorem. *)
Lemma per_file_failure_aborts_run_witness :
  let args := mkArgs "/m" (Some "eng") None false in
  let listed := mkState disk [Log "Processing /m"] [] None None in
  ls ["broken.mkv"; "a.mkv"] "/m" disk = Some ["broken.mkv"; "a.mkv"]
  ∧ mkv_files disk "/m" ["broken.mkv"; "a.mkv"] = [] ++ ("broken.mkv" :: ["a.mkv"])
  ∧ tool 0 (identify_cmd "/m" "broken.mkv") disk = (1%Z, "Error: not a Matroska file", disk)
  ∧ main args false (ls ["broken.mkv"; "a.mkv"]) md5 (tool 0) (initial disk) =
      (Raise (Exception "Error: not a Matroska file"),
       mkState disk
         (trace listed ++ [Log "[broken.mkv] Identifying";
                           Popen (identify_cmd "/m" "broken.mkv");
                           Log "[broken.mkv] mkvmerge failed to identify the file"])
         [] None None).
Proof.
  cbv zeta. split; [reflexivity|]. split; [vm_compute; reflexivity|].
  split; [vm_compute; reflexivity|].
  refine (proj1 (proj2 (per_file_failure_aborts_run
            (mkArgs "/m" (Some "eng") None false) false (ls ["broken.mkv"; "a.mkv"])
            md5 (tool 0) (initial disk)))
          ["broken.mkv"; "a.mkv"] [] "broken.mkv" ["a.mkv"] _ 1%Z
          "Error: not a Matroska file" disk _ _ _ _ _).
  - reflexivity.
  - vm_compute; reflexivity.
  - reflexivity.
  - vm_compute; reflexivity.
  - discriminate.
Defined.

(** C1.  The subtitle side of [_build_args] is not what the specification
    describes.  Asked to keep English audio and French subtitles of a file
    with audio tracks 1 (eng), 2 (jpn) and subtitle tracks 3 (eng), 4 (fre):
    [_build_args('audio')] stores the audio arguments under [subtitle_args]
    as well, and [_build_args('subtitle')] raises at line 142 because [field]
    was never assigned.  The run ends there; [--subtitle-tracks 4] is never
    built. *)
Theorem subtitle_args_not_from_subtitle_tracks :
  let args := mkArgs "/m" (Some "eng") (Some "fre") false in
  let r := main args false (ls ["a.mkv"]) md5 (tool 0) (initial disk) in
  parse_tracks two_by_two = ([("1", "eng"); ("2", "jpn")], [("3", "eng"); ("4", "fre")])
  ∧ r.1 = Raise (UnboundLocalError "field")
  ∧ file_to_tracks r.2 = [("md5:a.mkv", a_selected)]
  ∧ subtitle_args a_selected = ["--audio-tracks"; "1"; "--default-track"; "1:1"]
  ∧ last (trace r.2) = Some (Log "[a.mkv] Building CLI arguments for subtitle tracks")
  ∧ (_build_args (mkArgs "/m" None (Some "fre") false) "subtitle"
       (state_of [("md5:a.mkv", a_fresh)])).1 = Raise (UnboundLocalError "field").
Proof. cbv zeta. repeat split; by vm_compute. Qed.

(** C3.  The eligibility checks delete from the dictionary they iterate.
    With [a.mkv] (two audio tracks), [solo.mkv] (one) and [mute.mkv] (none),
    [_audio_check] deletes [solo.mkv], and the iterator's next step raises:
    nothing is returned, and [mute.mkv] is still in the dictionary.
    [_subtitle_check] behaves alike. *)
Theorem audio_check_raises_after_first_deletion :
  let d := [("a", a_fresh); ("s", solo_fresh); ("m", mute_fresh)] in
  let r := _audio_check (state_of d) in
  let r' := _subtitle_check (state_of d) in
  r.1 = Raise (RuntimeError "dictionary changed size during iteration")
  ∧ file_to_tracks r.2 = [("a", a_fresh); ("m", mute_fresh)]
  ∧ trace r.2 = [Log "[solo.mkv] At least 1 audio track required"]
  ∧ r'.1 = Raise (RuntimeError "dictionary changed size during iteration")
  ∧ file_to_tracks r'.2 = [("a", a_fresh); ("m", mute_fresh)]
  ∧ (main (mkArgs "/m" (Some "eng") None false) false (ls ["a.mkv"; "solo.mkv"]) md5
       (tool 0) (initial disk)).1
      = Raise (RuntimeError "dictionary changed size during iteration").
Proof. cbv zeta. repeat split; by vm_compute. Qed.

(** C4.  No track in the requested language: the report of lines 144-147
    names the module global [path], which is unbound until the final loop.
    Asked to keep French audio of a file with English and Japanese audio,
    the run raises [NameError] inside [_build_args('audio')] and ends; nothing
    is reported, and the final loop is not reached. *)
Theorem no_match_report_raises :
  let r := main (mkArgs "/m" (Some "fre") None false) false (ls ["a.mkv"; "b.mkv"]) md5
             (tool 0) (initial disk) in
  r.1 = Raise (NameError "path")
  ∧ last (trace r.2) = Some (Log "[a.mkv] Building CLI arguments for audio tracks")
  ∧ (Log "[b.mkv] Building CLI arguments for audio tracks" ∉ trace r.2)
  ∧ path r.2 = None.
Proof.
  cbv zeta. split; [by vm_compute|]. split; [by vm_compute|]. split; [|by vm_compute].
  match goal with |- _ ∉ ?t => let t' := eval vm_compute in t in change t with t' end.
  rewrite !not_elem_of_cons. repeat split; (discriminate || apply not_elem_of_nil).
Qed.

(** C5.  A unique match is selected and made default for audio
    ([build_args_audio_unique]), not for subtitles.  Asked to keep English
    subtitles of a file whose only English subtitle track is track 3,
    [_build_args('subtitle')] raises; [--subtitle-tracks 3 --default-track
    3:1] is not built and the record keeps its empty arguments. *)
Theorem unique_subtitle_match_not_selected :
  let args := mkArgs "/m" None (Some "eng") false in
  let r := _build_args args "subtitle" (state_of [("md5:a.mkv", a_fresh)]) in
  List.filter (lang_eqb (subtitle_language args)) (subtitle a_fresh) = [("3", "eng")]
  ∧ r.1 = Raise (UnboundLocalError "field")
  ∧ file_to_tracks r.2 = [("md5:a.mkv", a_fresh)]
  ∧ subtitle_args a_fresh = []
  ∧ (main args false (ls ["a.mkv"]) md5 (tool 0) (initial disk)).1
      = Raise (UnboundLocalError "field").
Proof. cbv zeta. repeat split; by vm_compute. Qed.

(** C8, as the specification has it, fails: the parser is not free of side
    effects.  Called as the script calls it, with [content] holding the text
    it is given, it returns the tracks of the text and adds two lines to the
    log. *)
Lemma extract_tracks_logs :
  let st := mkState disk [] [] (Some two_by_two) None in
  let r := _extract_tracks two_by_two "a.mkv" st in
  r.1 = Ok ([("1", "eng"); ("2", "jpn")], [("3", "eng"); ("4", "fre")])
  ∧ trace r.2 = [Log "[a.mkv] Extracting tracks";
                 Log "[a.mkv] Found 2 audio and 2 subtitle tracks"]
  ∧ r.2 ≠ st.
Proof.
  cbv zeta. split; [by vm_compute|]. split; [by vm_compute|].
  intros E. apply (f_equal trace) in E. vm_compute in E. discriminate E.
Qed.

Lemma extract_tracks_function_of_text_witness :
  content (mkState disk [] [] (Some two_by_two) None) = Some two_by_two
  ∧ content (mkState disk [Log "earlier"] [("md5:a.mkv", a_fresh)] (Some two_by_two)
               (Some "/m/a.mkv")) = Some two_by_two
  ∧ (_extract_tracks two_by_two "b.mkv"
       (mkState disk [Log "earlier"] [("md5:a.mkv", a_fresh)] (Some two_by_two)
          (Some "/m/a.mkv"))).1
    = (_extract_tracks two_by_two "a.mkv" (mkState disk [] [] (Some two_by_two) None)).1.
Proof.
  split; [reflexivity|]. split; [reflexivity|].
  exact (proj2 (proj2 (extract_tracks_function_of_text two_by_two
                         "a.mkv" (mkState disk [] [] (Some two_by_two) None)
                         "b.mkv" (mkState disk [Log "earlier"] [("md5:a.mkv", a_fresh)]
                                    (Some two_by_two) (Some "/m/a.mkv"))
                         eq_refl eq_refl))).
Defined.

(** Rounds of the final loop on [a.mkv]: without arguments, with a failing
    remux, and with a remux that succeeds. *)
Lemma no_work_skips_remux_witness :
  audio_args a_fresh = [] ∧ subtitle_args a_fresh = []
  ∧ process false (tool 0) "md5:a.mkv" a_fresh (state_of [("md5:a.mkv", a_fresh)]) =
      (Ok tt, mkState disk [Log "[a.mkv] No work to be done"] [("md5:a.mkv", a_fresh)] None None).
Proof.
  split; [reflexivity|]. split; [reflexivity|].
  apply (no_work_skips_remux false (tool 0) "md5:a.mkv" a_fresh
           (state_of [("md5:a.mkv", a_fresh)])); reflexivity.
Defined.

Lemma remux_failure_skips_commit_witness :
  has_work a_selected
  ∧ tool 3 (remux_cmd a_selected) disk = (3%Z, "Error: muxing failed", disk)
  ∧ (let r := process false (tool 3) "md5:a.mkv" a_selected
                (state_of [("md5:a.mkv", a_selected)]) in
     r.1 = Raise (Exception "Error: muxing failed")
     ∧ trace r.2 = [] ++ [Log "[a.mkv] Processing ..."; Popen (remux_cmd a_selected);
                          Log "Failed"]
     ∧ renames_of (drop 0 (trace r.2)) = []
     ∧ fs r.2 = disk).
Proof.
  assert (Hw : has_work a_selected) by (left; discriminate).
  split; [exact Hw|]. split; [vm_compute; reflexivity|].
  apply (remux_failure_skips_commit false (tool 3) "md5:a.mkv" a_selected
           (state_of [("md5:a.mkv", a_selected)]) 3%Z "Error: muxing failed" disk Hw).
  - vm_compute; reflexivity.
  - discriminate.
Defined.

Lemma commit_two_step_replace_witness :
  has_work a_selected
  ∧ tool 0 (remux_cmd a_selected) disk
      = (0%Z, "Muxing took 1 second.", <["/m/a.mkv.temp" := "stripped"]> disk)
  ∧ (let r := process false (tool 0) "md5:a.mkv" a_selected
                (state_of [("md5:a.mkv", a_selected)]) in
     r.1 = Ok tt
     ∧ renames_of (trace r.2) = [("/m/a.mkv", "/m/olda.mkv"); ("/m/a.mkv.temp", "/m/a.mkv")]
     ∧ fs r.2 !! "/m/olda.mkv" = Some "movie a"
     ∧ fs r.2 !! "/m/a.mkv" = Some "stripped").
Proof.
  assert (Hw : has_work a_selected) by (left; discriminate).
  assert (Hrun : tool 0 (remux_cmd a_selected) (fs (state_of [("md5:a.mkv", a_selected)]))
                 = (0%Z, "Muxing took 1 second.", <["/m/a.mkv.temp" := "stripped"]> disk))
    by (vm_compute; reflexivity).
  split; [exact Hw|]. split; [exact Hrun|].
  destruct (commit_two_step_replace false (tool 0) "md5:a.mkv" a_selected
              (state_of [("md5:a.mkv", a_selected)]) 0%Z "Muxing took 1 second."
              (<["/m/a.mkv.temp" := "stripped"]> disk) Hw Hrun) as (Hiff & Hok & _ & _).
  assert (Hr : (process false (tool 0) "md5:a.mkv" a_selected
                  (state_of [("md5:a.mkv", a_selected)])).1 = Ok tt)
    by (vm_compute; reflexivity).
  destruct (Hok Hr) as (Htr & Hbak & Hnew).
  cbv zeta. split; [exact Hr|]. split; [by rewrite Htr|].
  split; [refine (eq_trans Hbak _) | refine (eq_trans Hnew _)]; vm_compute; reflexivity.
Defined.

Lemma temp_output_path_witness :
  has_work a_selected
  ∧ (let r := process false (tool 0) "md5:a.mkv" a_selected
                (state_of [("md5:a.mkv", a_selected)]) in
     popens_of (trace r.2) =
       [["C:/Program Files/MKVtoolnix/mkvmerge.exe"; "-o"; "/m/a.mkv.temp";
         "--audio-tracks"; "1"; "--default-track"; "1:1";
         "--audio-tracks"; "1"; "--default-track"; "1:1"; "/m/a.mkv"]]
     ∧ last (renames_of (trace r.2)) = Some ("/m/a.mkv.temp", "/m/a.mkv")).
Proof.
  assert (Hw : has_work a_selected) by (left; discriminate).
  split; [exact Hw|].
  destruct (temp_output_path false (tool 0) "md5:a.mkv" a_selected
              (state_of [("md5:a.mkv", a_selected)]) Hw) as (_ & Hpop & _ & _ & Hlast).
  cbv zeta. split; [exact Hpop|]. apply Hlast. vm_compute; reflexivity.
Defined.

End Samples.

(** ** More on strings: lines and suffixes *)

Lemma string_app_nil_r (s : string) : s +:+ "" = s.
Proof. induction s as [|c s IH]; [done|]. by rewrite string_app_cons, IH. Qed.

Lemma rev_app_spec (a b : string) : String.rev_app a b = String.rev a +:+ b.
Proof.
  unfold String.rev. revert b. induction a as [|c a IH]; intros b; [done|].
  simpl. rewrite (IH (String c b)), (IH (String c "")).
  by rewrite string_app_assoc.
Qed.

Lemma rev_cons (c : ascii) (a : string) : String.rev (String c a) = String.rev a +:+ String c "".
Proof. unfold String.rev at 1. simpl. apply rev_app_spec. Qed.

Lemma unlines_lines_from (cur s : string) :
  unlines (Str.lines_from cur s) = String.rev cur +:+ s.
Proof.
  revert cur. induction s as [|c s IH]; intros cur; simpl.
  - case_bool_decide as Hc; simpl.
    + by subst cur.
    + by rewrite !string_app_nil_r.
  - destruct (Ascii.eqb c "010"%char); simpl.
    + rewrite IH, rev_cons. simpl. by rewrite string_app_assoc.
    + rewrite IH, rev_cons. by rewrite string_app_assoc.
Qed.

Lemma substring_whole (s : string) : String.substring 0 (String.length s) s = s.
Proof. induction s as [|c s IH]; [done|]. simpl. by rewrite IH. Qed.

Lemma substring_skip (a b : string) m :
  String.substring (String.length a) m (a +:+ b) = String.substring 0 m b.
Proof. induction a as [|c a IH]; [done|]. rewrite string_app_cons. simpl. apply IH. Qed.

Lemma substring_take (a b : string) :
  String.substring 0 (String.length a) (a +:+ b) = a.
Proof.
  induction a as [|c a IH]; [by destruct b|]. rewrite string_app_cons. simpl. by rewrite IH.
Qed.

Lemma substring_split (s : string) : ∀ n : nat, (n ≤ String.length s)%nat →
  s = String.substring 0 n s +:+ String.substring n (String.length s - n) s.
Proof.
  induction s as [|c s IH]; intros n Hn.
  - by destruct n.
  - destruct n as [|n]; simpl.
    + by rewrite substring_whole.
    + rewrite string_app_cons. f_equal. apply IH. simpl in Hn. lia.
Qed.

Lemma endswith_spec (p s : string) :
  Str.endswith p s = true ↔ ∃ a, s = a +:+ p.
Proof.
  unfold Str.endswith. rewrite andb_true_iff, bool_decide_eq_true, Nat.leb_le. split.
  - intros [Hle Hsub]. exists (String.substring 0 (String.length s - String.length p) s).
    etrans; [apply (substring_split s (String.length s - String.length p)); lia|].
    f_equal. rewrite <- Hsub at 3. f_equal. lia.
  - intros [a ->]. rewrite !string_length_app. split; [lia|].
    replace (String.length a + String.length p - String.length p) with (String.length a) by lia.
    by rewrite substring_skip, substring_whole.
Qed.

(** ** The matcher on the track patterns *)

Lemma run_chr_inv {R} p s caps (k : string → list string → option R) r :
  Re.run (Re.Chr p) s caps k = Some r →
  ∃ c s', s = String c s' ∧ p c = true ∧ k s' caps = Some r.
Proof.
  simpl. destruct s as [|c s']; [done|]. destruct (p c) eqn:Hp; [|done]. eauto.
Qed.

Lemma star_inv {R} p s (k : string → option R) r :
  Re.star p s k = Some r →
  ∃ pre rest, s = pre +:+ rest ∧ all_chars p pre = true ∧ k rest = Some r.
Proof.
  induction s as [|c s IH]; simpl.
  - intros H. by exists "", "".
  - destruct (p c) eqn:Hp.
    + destruct (Re.star p s k) as [r'|] eqn:Hs.
      * intros [= ->]. destruct (IH eq_refl) as (pre & rest & -> & Hall & Hk).
        exists (String c pre), rest. simpl. by rewrite Hp, Hall.
      * intros H. by exists "", (String c s).
    + intros H. by exists "", (String c s).
Qed.

Lemma run_lit_inv {R} t r0 : ∀ s caps (k : string → list string → option R) r,
  Re.run (Re.lit t r0) s caps k = Some r →
  ∃ rest, s = t +:+ rest ∧ Re.run r0 rest caps k = Some r.
Proof.
  induction t as [|c t IH]; intros s caps k r H.
  - by exists s.
  - simpl in H. destruct s as [|c' s]; [done|].
    destruct (Ascii.eqb c c') eqn:Hc; [|done]. apply Ascii.eqb_eq in Hc as <-.
    destruct (IH _ _ _ _ H) as (rest & -> & Hr). by exists rest.
Qed.

Lemma run_lit_none {R} t r0 : ∀ s caps (k : string → list string → option R),
  Str.startswith t s = false → Re.run (Re.lit t r0) s caps k = None.
Proof.
  induction t as [|c t IH]; intros s caps k H; [done|].
  simpl in *. destruct s as [|c' s]; [done|].
  destruct (Ascii.eqb c c'); [by apply IH | done].
Qed.

(** A line the pattern for [kind] matches has the shape the pattern
    describes, and the groups are the id and the three letters. *)
Lemma track_re_inv kind line g :
  Re.match_groups (track_re kind) line = Some g →
  ∃ ds l mid tail,
    g = [ds; l]
    ∧ line = "Track ID " +:+ ds +:+ ": " +:+ kind +:+ " " +:+ mid +:+ "language:" +:+ l +:+ tail
    ∧ captured_track (ds, l)
    ∧ all_chars Re.dot mid = true.
Proof.
  unfold Re.match_groups, track_re. intros H.
  apply run_lit_inv in H as (rest1 & -> & H).
  change (Re.run (Re.Chr Re.digit) rest1 []
            (λ s' caps', Re.star Re.digit s' (λ s'', 
               Re.run (Re.lit (": " +:+ kind +:+ " ")
                 (Re.Seq (Re.Star Re.dot)
                    (Re.lit "language:"
                       (Re.Group (Re.Seq (Re.Chr Re.lower)
                          (Re.Seq (Re.Chr Re.lower) (Re.Chr Re.lower)))))))
                 s'' (caps' ++ [String.substring 0 (String.length rest1 - String.length s'') rest1])
                 (λ _ caps, Some caps))) = Some g) in H.
  apply run_chr_inv in H as (c & s1 & -> & Hc & H).
  apply star_inv in H as (pre & rest2 & -> & Hpre & H).
  replace (String.substring 0 _ _) with (String c pre) in H.
  2:{ change (String c (pre +:+ rest2)) with (String c pre +:+ rest2).
      rewrite string_length_app.
      replace (String.length (String c pre) + String.length rest2 - String.length rest2)
        with (String.length (String c pre)) by lia.
      by rewrite substring_take. }
  apply run_lit_inv in H as (rest3 & -> & H).
  change (Re.star Re.dot rest3 (λ s',
            Re.run (Re.lit "language:"
                      (Re.Group (Re.Seq (Re.Chr Re.lower)
                         (Re.Seq (Re.Chr Re.lower) (Re.Chr Re.lower)))))
              s' ([] ++ [String c pre]) (λ _ caps, Some caps)) = Some g) in H.
  apply star_inv in H as (mid & rest4 & -> & Hmid & H).
  apply run_lit_inv in H as (rest5 & -> & H).
  change (Re.run (Re.Chr Re.lower) rest5 ([] ++ [String c pre])
            (λ s1 caps1, Re.run (Re.Chr Re.lower) s1 caps1
               (λ s2 caps2, Re.run (Re.Chr Re.lower) s2 caps2
                  (λ s3 caps3, Some (caps3 ++
                     [String.substring 0 (String.length rest5 - String.length s3) rest5]))))
          = Some g) in H.
  apply run_chr_inv in H as (a & t1 & -> & Ha & H).
  apply run_chr_inv in H as (b & t2 & -> & Hb & H).
  apply run_chr_inv in H as (d & tail & -> & Hd & H).
  injection H as <-.
  exists (String c pre), (String a (String b (String d ""))), mid, tail.
  split; [|split; [|split]].
  - simpl. do 2 f_equal.
    replace (String.length tail) with (0 + String.length tail) at 2 by done.
    assert (E : ∀ n, S (S (S n)) - n = 3) by (intros; lia). rewrite E.
    by destruct tail.
  - by rewrite !string_app_assoc.
  - repeat split; [done | by simpl; rewrite Ha, Hb, Hd].
  - done.
Qed.

(** ** What the parser returns *)

Lemma extract_line_cases acc line :
  (∃ t, Re.match_groups AUDIO_RE line = Some [t.1; t.2]
        ∧ extract_line acc line = (acc.1 ++ [t], acc.2))
  ∨ (∃ t, Re.match_groups SUBTITLE_RE line = Some [t.1; t.2]
          ∧ extract_line acc line = (acc.1, acc.2 ++ [t]))
  ∨ extract_line acc line = acc.
Proof.
  unfold extract_line.
  destruct (Re.match_groups AUDIO_RE line) as [[|i [|l [|]]]|] eqn:Ha; simpl;
    try (left; by exists (i, l));
    (destruct (Re.match_groups SUBTITLE_RE line) as [[|i' [|l' [|]]]|] eqn:Hs; simpl;
     try (right; left; by exists (i', l'));
     right; right; by destruct acc).
Qed.

Lemma foldl_extract_sound ls : ∀ acc,
  (∀ t, t ∈ (foldl extract_line acc ls).1 →
        t ∈ acc.1 ∨ ∃ line, line ∈ ls ∧ Re.match_groups AUDIO_RE line = Some [t.1; t.2])
  ∧ (∀ t, t ∈ (foldl extract_line acc ls).2 →
          t ∈ acc.2 ∨ ∃ line, line ∈ ls ∧ Re.match_groups SUBTITLE_RE line = Some [t.1; t.2]).
Proof.
  induction ls as [|line ls IH]; intros acc; simpl; [by split; intros; left|].
  destruct (IH (extract_line acc line)) as [IHa IHs].
  destruct (extract_line_cases acc line) as [(t0 & Hm & He)|[(t0 & Hm & He)|He]];
    rewrite He in *; simpl in *; split; intros t Ht;
    (destruct (IHa t Ht) as [Hin|(l & ? & ?)] || destruct (IHs t Ht) as [Hin|(l & ? & ?)]);
    try (right; exists l; split; [by right | done]);
    try (by left);
    (apply elem_of_app in Hin as [Hin|Hin%list_elem_of_singleton];
     [by left | subst t; right; exists line; split; [by left | done]]).
Qed.

Lemma foldl_extract_length ls : ∀ acc,
  (length (foldl extract_line acc ls).1 + length (foldl extract_line acc ls).2
   ≤ length acc.1 + length acc.2 + length ls)%nat.
Proof.
  induction ls as [|line ls IH]; intros acc; simpl; [lia|].
  specialize (IH (extract_line acc line)).
  destruct (extract_line_cases acc line) as [(t0 & _ & He)|[(t0 & _ & He)|He]];
    rewrite He in *; simpl in *; rewrite ?length_app in IH; simpl in IH; lia.
Qed.

(** X1.  Every track the parser returns was captured from a line of the
    text that has the shape of the pattern of its kind: [Track ID], the id,
    the kind, and further on, with no line feed in between, [language:]
    followed by the code.  The id is not empty and the code is three
    lower-case letters [a] to [z].  The parser invents no track. *)
Theorem parse_tracks_sound (text : string) :
  (∀ t, t ∈ (parse_tracks text).1 →
        captured_track t
        ∧ ∃ mid tail,
            ("Track ID " +:+ t.1 +:+ ": audio " +:+ mid +:+ "language:" +:+ t.2 +:+ tail)
              ∈ Str.lines text
            ∧ all_chars Re.dot mid = true)
  ∧ (∀ t, t ∈ (parse_tracks text).2 →
          captured_track t
          ∧ ∃ mid tail,
              ("Track ID " +:+ t.1 +:+ ": subtitles " +:+ mid +:+ "language:" +:+ t.2 +:+ tail)
                ∈ Str.lines text
              ∧ all_chars Re.dot mid = true).
Proof.
  unfold parse_tracks.
  destruct (foldl_extract_sound (Str.lines text) ([], [])) as [Ha Hs].
  split; intros t Ht.
  - destruct (Ha t Ht) as [Hin|(line & Hline & Hm)]; [by apply elem_of_nil in Hin|].
    apply track_re_inv in Hm as (ds & l & mid & tail & [= <- <-] & -> & Hcap & Hmid).
    split; [by destruct t|]. by exists mid, tail.
  - destruct (Hs t Ht) as [Hin|(line & Hline & Hm)]; [by apply elem_of_nil in Hin|].
    apply track_re_inv in Hm as (ds & l & mid & tail & [= <- <-] & -> & Hcap & Hmid).
    split; [by destruct t|]. by exists mid, tail.
Qed.

(** X2.  A line yields at most one track, for one of the two lists: the
    parser never returns more tracks than the text has lines. *)
Theorem parse_tracks_length (text : string) :
  (length (parse_tracks text).1 + length (parse_tracks text).2
   ≤ length (Str.lines text))%nat.
Proof. apply (foldl_extract_length (Str.lines text) ([], [])). Qed.

(** X3.  A line that does not begin with [Track ID ] is ignored. *)
Theorem extract_line_ignores (acc : list Track * list Track) (line : string) :
  Str.startswith "Track ID " line = false → extract_line acc line = acc.
Proof.
  intros H. unfold extract_line, Re.match_groups, AUDIO_RE, SUBTITLE_RE, track_re.
  by rewrite !run_lit_none.
Qed.

(** X4.  Splitting a text into the lines [StringIO] yields loses nothing and
    adds nothing: the lines put back together are the text. *)
Theorem unlines_lines (text : string) : unlines (Str.lines text) = text.
Proof. unfold Str.lines. by rewrite unlines_lines_from. Qed.

(** ** Statements that only add events *)

Lemma add_events_nil st : add_events [] st = st.
Proof. destruct st. unfold add_events. simpl. by rewrite app_nil_r. Qed.

Lemma add_events_app evs1 evs2 st :
  add_events evs2 (add_events evs1 st) = add_events (evs1 ++ evs2) st.
Proof. unfold add_events. simpl. by rewrite app_assoc. Qed.

Lemma emit_add_events e st : emit e st = (Ok tt, add_events [e] st).
Proof. reflexivity. Qed.

Lemma for_each_emit {A} (g : A → Event) (xs : list A) st :
  for_each xs (λ x, emit (g x)) st = (Ok tt, add_events (map g xs) st).
Proof.
  revert st. induction xs as [|x xs IH]; intros st; simpl.
  - by rewrite add_events_nil.
  - unfold bind. rewrite emit_add_events, IH. by rewrite add_events_app.
Qed.

(** A loop over the dictionary whose rounds only add events ends normally,
    with the events of all records in order. *)
Lemma iter_add_events (f : string * MKVFile → list Event) body n : ∀ pos st,
  (∀ k rec evs, (k, rec) ∈ file_to_tracks st →
                body k rec (add_events evs st)
                = (Ok tt, add_events (evs ++ f (k, rec)) st)) →
  length (file_to_tracks st) = pos + n →
  ∀ evs,
  Dict.iter n (pos + n) pos body (add_events evs st)
  = (Ok tt, add_events (evs ++ concat (map f (drop pos (file_to_tracks st)))) st).
Proof.
  induction n as [|n IH]; intros pos st Hbody Hlen evs.
  - simpl. rewrite Hlen, Nat.eqb_refl. simpl.
    rewrite drop_ge by lia. simpl. by rewrite app_nil_r.
  - rewrite DictFacts.iter_unfold by done. simpl.
    destruct (file_to_tracks st !! pos) as [[k rec]|] eqn:Hpos.
    2:{ apply lookup_ge_None in Hpos. lia. }
    unfold bind. rewrite Hbody by (by eapply list_elem_of_lookup_2).
    replace (pos + S n) with (S pos + n) by lia.
    rewrite IH by (done || lia).
    rewrite (drop_S _ _ _ Hpos). simpl. by rewrite app_assoc.
Qed.

Lemma for_items_add_events (f : string * MKVFile → list Event) body st :
  (∀ k rec evs, (k, rec) ∈ file_to_tracks st →
                body k rec (add_events evs st)
                = (Ok tt, add_events (evs ++ f (k, rec)) st)) →
  Dict.for_items body st = (Ok tt, add_events (concat (map f (file_to_tracks st))) st).
Proof.
  intros Hbody. unfold Dict.for_items.
  pose proof (iter_add_events f body (length (file_to_tracks st)) 0 st Hbody eq_refl []) as H.
  by rewrite add_events_nil in H.
Qed.

(** X5.  [_list_tracks] only prints.  For every dictionary it ends normally
    and leaves file system, dictionary and globals alone; per record it
    prints the text [f{rec.filename}] as it stands (line 96 is not an
    f-string), the heading for audio, one line per audio track, one line per
    subtitle track (without a heading of their own) and an empty line. *)
Theorem list_tracks_prints (st : State) :
  _list_tracks st = (Ok tt, add_events (concat (map listing_of (file_to_tracks st))) st).
Proof.
  unfold _list_tracks. apply for_items_add_events. intros k rec evs _.
  unfold bind. rewrite !emit_add_events, add_events_app. unfold print_track.
  rewrite for_each_emit, add_events_app, for_each_emit, add_events_app.
  rewrite emit_add_events, !add_events_app. unfold listing_of. simpl.
  by rewrite <- !app_assoc.
Qed.

(** X6.  [_get_file_list] keeps, in the order of the listing, exactly the
    listed names that end in [.mkv] and name a regular file of the directory;
    it logs one line and changes nothing else.  A listing that fails raises. *)
Theorem get_file_list_spec (os_listdir : string → FS → option (list string))
    (dir : string) (st : State) :
  match os_listdir dir (fs st) with
  | None =>
      _get_file_list os_listdir dir st
      = (Raise (OSError dir), add_events [Log ("Processing " +:+ dir)] st)
  | Some names =>
      ∃ files,
        _get_file_list os_listdir dir st
        = (Ok files, add_events [Log ("Processing " +:+ dir)] st)
        ∧ files `sublist_of` names
        ∧ ∀ name, name ∈ files ↔
            name ∈ names ∧ (∃ stem, name = stem +:+ ".mkv")
            ∧ is_Some (fs st !! join dir name)
  end.
Proof.
  destruct (os_listdir dir (fs st)) as [names|] eqn:Hls.
  - exists (mkv_files (fs st) dir names). split; [by apply get_file_list_listed|].
    unfold mkv_files. split.
    + clear Hls. induction names as [|n names IH]; simpl; [constructor|].
      destruct (_ && _); [apply sublist_skip, IH | apply sublist_cons, IH].
    + intros name. rewrite list_elem_of_In, filter_In, <- list_elem_of_In.
      rewrite andb_true_iff, bool_decide_eq_true, endswith_spec. tauto.
  - by apply get_file_list_failed.
Qed.

(** X7.  What the eligibility checks do to any dictionary.  When no file
    has fewer than two tracks of the kind, the check returns the dictionary
    untouched.  Otherwise it logs the first such file, deletes it, and
    raises at the iterator's next step: one file is deleted, never more. *)
Theorem eligibility_check_outcome (st : State) :
  _audio_check st =
    match list_find few_audio (file_to_tracks st) with
    | None => (Ok (file_to_tracks st), st)
    | Some (_, (k, rec)) =>
        (Raise (RuntimeError "dictionary changed size during iteration"),
         mkState (fs st)
           (trace st ++ [Log ("[" +:+ filename rec +:+ "] At least 1 audio track required")])
           (Dict.del k (file_to_tracks st)) (content st) (path st))
    end
  ∧ _subtitle_check st =
    match list_find few_subtitle (file_to_tracks st) with
    | None => (Ok (file_to_tracks st), st)
    | Some (_, (k, rec)) =>
        (Raise (RuntimeError "dictionary changed size during iteration"),
         mkState (fs st)
           (trace st ++ [Log ("[" +:+ filename rec +:+ "] At least 1 subtitle track required")])
           (Dict.del k (file_to_tracks st)) (content st) (path st))
    end.
Proof.
  split.
  - destruct (list_find few_audio (file_to_tracks st)) as [[i [k rec]]|] eqn:Hf.
    + by eapply audio_check_raises.
    + by apply audio_check_ok.
  - destruct (list_find few_subtitle (file_to_tracks st)) as [[i [k rec]]|] eqn:Hf.
    + by eapply subtitle_check_raises.
    + by apply subtitle_check_ok.
Qed.

(** ** More on [_build_args] *)

(** X8.  A [langtype] that names neither kind is not rejected: the
    exception of line 129 is built and dropped.  On an empty dictionary the
    call does nothing; otherwise the first round logs and then raises
    [UnboundLocalError] at line 142. *)
Theorem build_args_unknown_langtype (args : Args) (langtype : string) (st : State) :
  Str.contains "audio" langtype = false →
  Str.contains "language" langtype = false →
  _build_args args langtype st =
    match file_to_tracks st with
    | [] => (Ok tt, st)
    | (k, rec) :: _ =>
        (Raise (UnboundLocalError "field"),
         add_events [Log ("[" +:+ filename rec +:+ "] Building CLI arguments for "
                          +:+ langtype +:+ " tracks")] st)
    end.
Proof.
  intros Ha Hl. unfold _build_args, Dict.for_items.
  destruct (file_to_tracks st) as [|[k rec] d] eqn:Hd.
  - simpl. by rewrite Hd.
  - simpl length. erewrite DictFacts.iter_raises; [done | by rewrite Hd | by rewrite Hd |].
    unfold build_args_body. by rewrite Ha, Hl.
Qed.

Lemma imap_cons' {A B} (f : nat → A → B) x l : imap f (x :: l) = f 0 x :: imap (f ∘ S) l.
Proof. reflexivity. Qed.

(** X9.  The arguments lines 156-160 build for a non-empty list of tracks
    to keep: the kind's [--<kind>-tracks], the ids joined by commas in the
    order of the list, then one [--default-track] pair per id, [id:1] for
    the first and [id:0] for every other. *)
Theorem keep_args_shape (langtype : string) (t : Track) (ts : list Track) :
  keep_args langtype (t :: ts) =
    ["--" +:+ langtype +:+ "-tracks"; Str.join "," (t.1 :: map fst ts);
     "--default-track"; t.1 +:+ ":1"]
    ++ concat (map (λ a : Track, ["--default-track"; a.1 +:+ ":0"]) ts).
Proof.
  unfold keep_args. rewrite imap_cons'. simpl. do 4 f_equal.
  induction ts as [|a ts IH]; [done|].
  rewrite imap_cons'. simpl. do 2 f_equal. apply IH.
Qed.

(** X10.  One round of [_build_args('audio')], for every record and state,
    by the number of audio tracks in the requested language.  None, with a
    language requested: the report raises while [path] is unbound, and is
    logged once it is bound; the record is left alone.  One: its arguments
    are stored under both attributes.  Several: the file is reported and left
    alone.  The tracks counted are tracks of the file in that language. *)
Theorem build_args_audio_round (args : Args) (key : string) (rec : MKVFile) (st : State) :
  let filterlang := List.filter (lang_eqb (audio_language args)) (audio rec) in
  let started := Log ("[" +:+ filename rec +:+ "] Building CLI arguments for audio tracks") in
  let stored cmd :=
    mkState (fs st) (trace st ++ [started])
      (Dict.set key
         (mkMKVFile (filename rec) (audio rec) (subtitle rec) (root rec) cmd cmd)
         (file_to_tracks st))
      (content st) (path st) in
  build_args_body args "audio" key rec st =
    match filterlang with
    | [] =>
        if truthy (audio_language args) then
          match path st with
          | None => (Raise (NameError "path"), add_events [started] st)
          | Some p =>
              (Ok tt,
               add_events
                 [started;
                  Log ("[" +:+ filename rec +:+ "] No audio tracks with language "
                       +:+ default "None" (audio_language args) +:+ " in " +:+ p)] st)
          end
        else (Ok tt, stored [])
    | [a] => (Ok tt, stored ["--audio-tracks"; a.1; "--default-track"; a.1 +:+ ":1"])
    | _ :: _ :: _ =>
        (Ok tt,
         add_events
           [started;
            Log ("[" +:+ filename rec +:+ "] More than one audio track matching "
                 +:+ default "None" (audio_language args) +:+ ". Skipping")] st)
    end
  ∧ Forall (λ a : Track, a ∈ audio rec ∧ audio_language args = Some a.2) filterlang.
Proof.
  intros filterlang started stored. split.
  - rewrite build_args_body_audio. cbv zeta. fold filterlang.
    destruct filterlang as [|a [|b l]] eqn:Hf; simpl.
    + rewrite andb_true_r. destruct (truthy (audio_language args)); [|reflexivity].
      unfold bind, load_path, add_events. simpl.
      destruct (path st) as [p|] eqn:Hp; [|done].
      unfold emit. simpl. by rewrite <- app_assoc.
    + rewrite andb_false_r. reflexivity.
    + rewrite andb_false_r. unfold emit, add_events. simpl. by rewrite <- app_assoc.
  - apply Forall_forall. intros a Ha. subst filterlang.
    apply list_elem_of_In, filter_In in Ha as [Hin Hl]. split; [by apply list_elem_of_In|].
    unfold lang_eqb in Hl. destruct (audio_language args) as [l|]; [|done].
    apply bool_decide_eq_true in Hl. by subst.
Qed.

(** ** Invariants of statements *)

Lemma invariant_ret I {A} (a : A) : invariant I (ret a).
Proof. by intros st. Qed.

Lemma invariant_raise I {A} e : invariant I (@raise A e).
Proof. by intros st. Qed.

Lemma invariant_bind I {A B} (m : Py A) (f : A → Py B) :
  invariant I m → (∀ a, invariant I (f a)) → invariant I (bind m f).
Proof.
  intros Hm Hf st HI. unfold bind. specialize (Hm st HI).
  destruct (m st) as [[a|e] st1]; simpl in *; [by apply Hf | done].
Qed.

Lemma invariant_for_each I {A} (xs : list A) body :
  (∀ x, invariant I (body x)) → invariant I (for_each xs body).
Proof.
  intros Hb. induction xs as [|x xs IH]; simpl.
  - apply invariant_ret.
  - apply invariant_bind; auto.
Qed.

(** In a loop over the dictionary the body only has to keep the invariant
    for items the dictionary holds. *)
Lemma invariant_iter (I : State → Prop) body :
  (∀ k rec st, I st → (k, rec) ∈ file_to_tracks st → I (body k rec st).2) →
  ∀ n used pos, invariant I (Dict.iter n used pos body).
Proof.
  intros Hb n used. induction n as [|n IH]; intros pos st HI; simpl.
  - by destruct (negb _).
  - destruct (negb _); [done|].
    destruct (file_to_tracks st !! pos) as [[k rec]|] eqn:Hpos; [|done].
    unfold bind. specialize (Hb k rec st HI (list_elem_of_lookup_2 _ _ _ Hpos)).
    destruct (body k rec st) as [[[]|e] st1]; simpl in *; [by apply IH | done].
Qed.

Lemma invariant_for_items (I : State → Prop) body :
  (∀ k rec st, I st → (k, rec) ∈ file_to_tracks st → I (body k rec st).2) →
  invariant I (Dict.for_items body).
Proof. intros Hb st. unfold Dict.for_items. by apply invariant_iter. Qed.

(** *** Events that touch no file *)

Lemma harmless_emit dir e :
  harmless dir e → invariant (λ st, Forall (harmless dir) (trace st)) (emit e).
Proof. intros He st HI. simpl. apply Forall_app. by split; [|constructor]. Qed.

Lemma harmless_popen dir run_process name :
  invariant (λ st, Forall (harmless dir) (trace st))
    (popen run_process (identify_cmd dir name)).
Proof.
  intros st HI. unfold popen, bind, emit, get_fs, put_fs, ret. simpl.
  destruct (run_process _ _) as [[rc out] f']. simpl.
  apply Forall_app. split; [done|]. constructor; [by exists name | constructor].
Qed.

Lemma invariant_for_items' (I : State → Prop) body :
  (∀ k rec, invariant I (body k rec)) → invariant I (Dict.for_items body).
Proof. intros Hb. apply invariant_for_items. intros k rec st HI _. by apply Hb. Qed.

Ltac invariant_step :=
  first
    [ progress intros
    | apply invariant_bind
    | apply invariant_for_each
    | apply invariant_for_items'
    | apply invariant_ret
    | apply invariant_raise
    | match goal with
      | |- invariant _ (if ?b then _ else _) => destruct b
      | |- invariant _ (match ?x with _ => _ end) => destruct x
      | |- invariant _ (let _ := _ in _) => cbv zeta
      end ].

Ltac harmless :=
  repeat first
    [ apply harmless_popen
    | apply harmless_emit; first [exact I | by eexists]
    | invariant_step
    | solve [ let st := fresh in let H := fresh in
              intros st H;
              first [ exact H
                    | unfold load_content; by destruct (content st)
                    | unfold load_path; by destruct (path st) ] ] ].

Section Harmless.

Variable args : Args.
Variable windows : bool.
Variable os_listdir : string → FS → option (list string).
Variable md5_hexdigest : string → string.
Variable run_process : list string → FS → Z * string * FS.

Local Abbreviation quiet := (λ st, Forall (harmless (input_directory args)) (trace st)).

Lemma harmless_identify_file name :
  invariant quiet (identify_file args md5_hexdigest run_process name).
Proof.
  unfold identify_file, _mkvmerge_identify, _extract_tracks, Dict.setitem.
  change [MKVMERGE; "--identify-verbose"; join (input_directory args) name]
    with (identify_cmd (input_directory args) name).
  harmless.
Qed.

Lemma harmless_select : invariant quiet (select args).
Proof.
  unfold select, _list_tracks, _audio_check, _subtitle_check, _build_args, build_args_body,
    print_track, Dict.delitem, Dict.setitem.
  harmless.
Qed.

Lemma harmless_prepare :
  invariant quiet (prepare args os_listdir md5_hexdigest run_process).
Proof.
  unfold prepare. apply invariant_bind; [unfold _get_file_list; harmless | intros files].
  apply invariant_bind; [| intros _; apply harmless_select].
  apply invariant_for_each, harmless_identify_file.
Qed.

(** X11.  Before the final loop the script renames nothing and spawns no
    process but identifications, whatever the command line, the directory
    and the tools, and however this part of the run ends. *)
Theorem prepare_is_harmless (st : State) :
  Forall (harmless (input_directory args)) (trace st) →
  Forall (harmless (input_directory args))
    (trace (prepare args os_listdir md5_hexdigest run_process st).2).
Proof. apply harmless_prepare. Qed.

End Harmless.

(** ** The dictionary through [_build_args] and the final loop *)

Lemma dict_set_identity k rec rec' (d : list (string * MKVFile)) :
  NoDup (map fst d) → (k, rec) ∈ d →
  identity_of (k, rec') = identity_of (k, rec) →
  map identity_of (Dict.set k rec' d) = map identity_of d.
Proof.
  intros Hnd Hin Hid. induction d as [|[k' v'] d IH]; [by apply elem_of_nil in Hin|].
  simpl in *. apply NoDup_cons in Hnd as [Hk' Hnd].
  case_bool_decide as Hk.
  - subst k'. simpl. f_equal.
    apply elem_of_cons in Hin as [[= ->]|Hin]; [done|].
    exfalso. apply Hk'. apply list_elem_of_fmap. by exists (k, rec).
  - simpl. f_equal. apply IH; [done|].
    apply elem_of_cons in Hin as [[= -> ->]|Hin]; [done | done].
Qed.

Lemma build_args_keeps_ids (args : Args) (langtype : string)
    (ids : list (string * string * list Track * list Track * string)) :
  NoDup (map (λ x : string * string * list Track * list Track * string, x.1.1.1.1) ids) →
  invariant (λ st, map identity_of (file_to_tracks st) = ids) (_build_args args langtype).
Proof.
  intros Hids. unfold _build_args. apply invariant_for_items.
  intros k rec st HI Hin.
  assert (Hnd : NoDup (map fst (file_to_tracks st))).
  { rewrite <- HI, map_map in Hids. done. }
  unfold build_args_body, bind, emit, load_local, load_path, Dict.setitem, get_dict, put_dict,
    ret, raise.
  simpl.
  destruct (Str.contains "language" langtype), (Str.contains "audio" langtype); simpl;
    try done;
    (destruct (truthy (audio_language args) && _); simpl;
     [ by destruct (path st)
     | destruct (1 <? _)%nat; simpl; [done|];
       rewrite <- HI; eapply dict_set_identity; [done | exact Hin | by destruct rec] ]).
Qed.

(** X12.  [_build_args] changes nothing of the dictionary but the argument
    lists of its records: for every [langtype], on a dictionary with
    distinct keys, the files, their order, and each file's name, directory
    and tracks are afterwards what they were, whether the call returns or
    raises. *)
Theorem build_args_keeps_files (args : Args) (langtype : string) (st : State) :
  NoDup (map fst (file_to_tracks st)) →
  map identity_of (file_to_tracks (_build_args args langtype st).2)
  = map identity_of (file_to_tracks st).
Proof.
  intros Hnd.
  apply (build_args_keeps_ids args langtype (map identity_of (file_to_tracks st))); [|done].
  by rewrite map_map.
Qed.

(** ** The final loop as a whole *)

Lemma concat_map_singleton {A B} (g : A → B) (l : list A) :
  concat (map (λ x, [g x]) l) = map g l.
Proof. induction l as [|x l IH]; [done|]. simpl. by rewrite IH. Qed.

Section FinalLoop.

Variable windows : bool.
Variable run_process : list string → FS → Z * string * FS.

Lemma process_keeps_dict key rec st :
  file_to_tracks (process windows run_process key rec st).2 = file_to_tracks st
  ∧ ∀ e, (process windows run_process key rec st).1 = Raise e → commit_exception e.
Proof.
  destruct (decide (audio_args rec = [])) as [Ha|Ha];
    [destruct (decide (subtitle_args rec = [])) as [Hs|Hs]|].
  - by rewrite process_no_work.
  - destruct (run_process (remux_cmd rec) (fs st)) as [[rc out] f1] eqn:Hrun.
    pose proof (process_cases windows run_process key rec st rc out f1
                  (or_intror Hs) Hrun) as Hc.
    cbv zeta in Hc. rewrite Hc. by destruct (ending windows rec rc f1); split; try intros ? [= <-].
  - destruct (run_process (remux_cmd rec) (fs st)) as [[rc out] f1] eqn:Hrun.
    pose proof (process_cases windows run_process key rec st rc out f1
                  (or_introl Ha) Hrun) as Hc.
    cbv zeta in Hc. rewrite Hc. by destruct (ending windows rec rc f1); split; try intros ? [= <-].
Qed.

Lemma iter_commit_exception n : ∀ used pos st e,
  length (file_to_tracks st) = used →
  (Dict.iter n used pos (process windows run_process) st).1 = Raise e →
  commit_exception e.
Proof.
  induction n as [|n IH]; intros used pos st e Hlen; simpl; rewrite Hlen, Nat.eqb_refl; simpl.
  - done.
  - destruct (file_to_tracks st !! pos) as [[k rec]|]; [|done].
    unfold bind. destruct (process_keeps_dict k rec st) as [Hd He].
    destruct (process windows run_process k rec st) as [[[]|e'] st1]; simpl in *.
    + apply IH. by rewrite Hd.
    + intros [= <-]. by apply He.
Qed.

(** X13.  The final loop never changes the dictionary it iterates, so the
    iterator's size check cannot fail: the loop leaves [file_to_tracks] as it
    found it, and when it raises, the exception is one a round raised itself,
    the [Exception] of a failed remux or the error of a rename, never
    [RuntimeError]. *)
Theorem final_loop_keeps_dictionary (st : State) :
  let r := Dict.for_items (process windows run_process) st in
  file_to_tracks r.2 = file_to_tracks st
  ∧ ∀ e, r.1 = Raise e → commit_exception e.
Proof.
  intros r. split.
  - apply (invariant_for_items (λ st', file_to_tracks st' = file_to_tracks st)); [|done].
    intros k rec st' HI _. by rewrite (proj1 (process_keeps_dict k rec st')).
  - intros e. by apply iter_commit_exception.
Qed.

Lemma for_items_process_no_work (st : State) :
  Forall no_args (file_to_tracks st) →
  Dict.for_items (process windows run_process) st =
    (Ok tt,
     add_events
       (map (λ kv : string * MKVFile, Log ("[" +:+ filename kv.2 +:+ "] No work to be done"))
          (file_to_tracks st)) st).
Proof.
  intros Hall.
  rewrite (for_items_add_events
             (λ kv, [Log ("[" +:+ filename kv.2 +:+ "] No work to be done")])).
  - by rewrite concat_map_singleton.
  - intros k rec evs Hin. rewrite Forall_forall in Hall.
    destruct (Hall _ Hin) as [Ha Hs]. simpl in *.
    rewrite process_no_work by done. unfold add_events. simpl. by rewrite <- app_assoc.
Qed.

(** X14.  When no record has arguments the final loop touches nothing: it
    ends normally, spawns no process, renames nothing, and logs one [No work
    to be done] per file, in the order of the dictionary. *)
Theorem final_loop_without_work (st : State) :
  Forall no_args (file_to_tracks st) →
  Dict.for_items (process windows run_process) st =
    (Ok tt,
     add_events
       (map (λ kv : string * MKVFile, Log ("[" +:+ filename kv.2 +:+ "] No work to be done"))
          (file_to_tracks st)) st).
Proof. apply for_items_process_no_work. Qed.

End FinalLoop.

(** X15.  The three paths a commit touches are pairwise distinct for every
    directory and file name: the backup [old<filename>] is neither the
    original nor the temporary output, so the first rename cannot overwrite
    either of them. *)
Theorem commit_paths_distinct (dir name : string) :
  let p := join dir name in
  let backup := join dir ("old" +:+ name) in
  backup ≠ p ∧ backup ≠ p +:+ ".temp" ∧ p +:+ ".temp" ≠ p.
Proof.
  intros p backup. split; [apply backup_ne_path | split; [apply backup_ne_temp | apply temp_ne_path]].
Qed.

(** ** A run without a language *)

Lemma dict_set_Forall (P : string * MKVFile → Prop) k v (d : list (string * MKVFile)) :
  P (k, v) → Forall P d → Forall P (Dict.set k v d).
Proof.
  intros Hv Hd. induction Hd as [|[k' v'] d Hx Hd IH]; simpl.
  - by constructor.
  - case_bool_decide; constructor; auto.
Qed.

Lemma no_args_setitem k v :
  no_args (k, v) → invariant (λ st, Forall no_args (file_to_tracks st)) (Dict.setitem k v).
Proof. intros Hv st HI. simpl. by apply dict_set_Forall. Qed.

Ltac keeps_dict_leaf :=
  solve [ let st := fresh in let H := fresh in
          intros st H;
          first [ exact H
                | unfold load_content; by destruct (content st)
                | unfold load_path; by destruct (path st) ] ].

Section NoLanguage.

Variable args : Args.
Variable windows : bool.
Variable os_listdir : string → FS → option (list string).
Variable md5_hexdigest : string → string.
Variable run_process : list string → FS → Z * string * FS.

Hypothesis no_audio : truthy (audio_language args) = false.
Hypothesis no_subtitle : truthy (subtitle_language args) = false.

Local Abbreviation bare := (λ st, Forall no_args (file_to_tracks st)).

Lemma no_args_identify_file name :
  invariant bare (identify_file args md5_hexdigest run_process name).
Proof.
  unfold identify_file, _mkvmerge_identify, _extract_tracks, popen.
  repeat first [ apply no_args_setitem; by split | invariant_step | keeps_dict_leaf ].
Qed.

Lemma no_args_select : invariant bare (select args).
Proof.
  unfold select. rewrite no_audio, no_subtitle.
  unfold _list_tracks, print_track.
  repeat first [ invariant_step | keeps_dict_leaf ].
Qed.

Lemma no_args_prepare :
  invariant bare (prepare args os_listdir md5_hexdigest run_process).
Proof.
  unfold prepare. apply invariant_bind.
  - unfold _get_file_list. repeat first [ invariant_step | keeps_dict_leaf ].
  - intros files. apply invariant_bind; [| intros _; apply no_args_select].
    apply invariant_for_each, no_args_identify_file.
Qed.

(** X16.  Without [--audio-language] and [--subtitle-language] the script
    only looks: started on a dictionary without arguments, the whole run
    renames nothing and spawns no process but identifications, and no record
    ever gets arguments, whatever the directory holds and however the run
    ends. *)
Theorem run_without_language_is_harmless (st : State) :
  Forall no_args (file_to_tracks st) →
  Forall (harmless (input_directory args)) (trace st) →
  let r := main args windows os_listdir md5_hexdigest run_process st in
  Forall (harmless (input_directory args)) (trace r.2)
  ∧ Forall no_args (file_to_tracks r.2).
Proof.
  intros Hbare Hquiet r. subst r. rewrite main_prepare. unfold bind.
  pose proof (no_args_prepare st Hbare) as Hb.
  pose proof (harmless_prepare args os_listdir md5_hexdigest run_process st Hquiet) as Hq.
  destruct (prepare _ _ _ _ st) as [[[]|e] st1]; simpl in *; [|done].
  rewrite for_items_process_no_work by done. simpl. split; [|done].
  apply Forall_app. split; [done|].
  apply Forall_forall. intros ev (kv & -> & _)%list_elem_of_fmap. exact I.
Qed.

End NoLanguage.

(** ** The identification loop *)


(** ** The additional properties on the sample directory *)

Section MoreSamples.

Import Sample.

Lemma parse_tracks_sound_witness :
  ("2", "jpn") ∈ (parse_tracks two_by_two).1 ∧ captured_track ("2", "jpn").
Proof.
  assert (H : ("2", "jpn") ∈ (parse_tracks two_by_two).1).
  { apply list_elem_of_In. vm_compute. right. left. reflexivity. }
  split; [exact H|].
  exact (proj1 (proj1 (parse_tracks_sound two_by_two) ("2", "jpn") H)).
Defined.

Lemma extract_line_ignores_witness :
  Str.startswith "Track ID " "File '/m/a.mkv': container: Matroska" = false
  ∧ extract_line ([("1", "eng")], []) "File '/m/a.mkv': container: Matroska"
    = ([("1", "eng")], []).
Proof.
  split; [reflexivity|].
  apply (extract_line_ignores ([("1", "eng")], []) "File '/m/a.mkv': container: Matroska").
  reflexivity.
Defined.

Lemma build_args_unknown_langtype_witness :
  Str.contains "audio" "video" = false ∧ Str.contains "language" "video" = false
  ∧ _build_args (mkArgs "/m" (Some "eng") None false) "video"
      (state_of [("md5:a.mkv", a_fresh)])
    = (Raise (UnboundLocalError "field"),
       add_events [Log "[a.mkv] Building CLI arguments for video tracks"]
         (state_of [("md5:a.mkv", a_fresh)])).
Proof.
  split; [reflexivity|]. split; [reflexivity|].
  apply (build_args_unknown_langtype (mkArgs "/m" (Some "eng") None false) "video"
           (state_of [("md5:a.mkv", a_fresh)])); reflexivity.
Defined.

Lemma prepare_is_harmless_witness :
  Forall (harmless "/m") (trace (initial disk))
  ∧ Forall (harmless "/m")
      (trace (prepare (mkArgs "/m" (Some "eng") None true) (ls ["a.mkv"; "twins.mkv"])
                md5 (tool 0) (initial disk)).2).
Proof.
  assert (H : Forall (harmless "/m") (trace (initial disk))) by apply Forall_nil_2.
  split; [exact H|].
  exact (prepare_is_harmless (mkArgs "/m" (Some "eng") None true)
           (ls ["a.mkv"; "twins.mkv"]) md5 (tool 0) (initial disk) H).
Defined.

Lemma build_args_keeps_files_witness :
  NoDup (map fst [("md5:a.mkv", a_fresh); ("md5:twins.mkv", solo_fresh)])
  ∧ map identity_of
      (file_to_tracks
         (_build_args (mkArgs "/m" (Some "eng") None false) "audio"
            (mkState disk [] [("md5:a.mkv", a_fresh); ("md5:twins.mkv", solo_fresh)]
               None (Some "/m/x.mkv"))).2)
    = map identity_of [("md5:a.mkv", a_fresh); ("md5:twins.mkv", solo_fresh)].
Proof.
  assert (H : NoDup (map fst [("md5:a.mkv", a_fresh); ("md5:twins.mkv", solo_fresh)])).
  { apply NoDup_cons. split.
    - intros Hin%list_elem_of_singleton. discriminate Hin.
    - apply NoDup_singleton. }
  split; [exact H|].
  exact (build_args_keeps_files (mkArgs "/m" (Some "eng") None false) "audio"
           (mkState disk [] [("md5:a.mkv", a_fresh); ("md5:twins.mkv", solo_fresh)]
              None (Some "/m/x.mkv")) H).
Defined.

Lemma final_loop_keeps_dictionary_witness :
  let r := Dict.for_items (process false (tool 3))
             (state_of [("md5:a.mkv", a_selected); ("md5:b.mkv", a_fresh)]) in
  r.1 = Raise (Exception "Error: muxing failed")
  ∧ commit_exception (Exception "Error: muxing failed")
  ∧ file_to_tracks r.2 = [("md5:a.mkv", a_selected); ("md5:b.mkv", a_fresh)].
Proof.
  cbv zeta.
  destruct (final_loop_keeps_dictionary false (tool 3)
              (state_of [("md5:a.mkv", a_selected); ("md5:b.mkv", a_fresh)])) as [Hd He].
  assert (Hr : (Dict.for_items (process false (tool 3))
                  (state_of [("md5:a.mkv", a_selected); ("md5:b.mkv", a_fresh)])).1
               = Raise (Exception "Error: muxing failed")) by (vm_compute; reflexivity).
  split; [exact Hr|]. split; [exact (He _ Hr) | exact Hd].
Defined.

Lemma final_loop_without_work_witness :
  Forall no_args [("md5:a.mkv", a_fresh); ("md5:solo.mkv", solo_fresh)]
  ∧ Dict.for_items (process false (tool 0))
      (state_of [("md5:a.mkv", a_fresh); ("md5:solo.mkv", solo_fresh)])
    = (Ok tt,
       add_events [Log "[a.mkv] No work to be done"; Log "[solo.mkv] No work to be done"]
         (state_of [("md5:a.mkv", a_fresh); ("md5:solo.mkv", solo_fresh)])).
Proof.
  assert (H : Forall no_args [("md5:a.mkv", a_fresh); ("md5:solo.mkv", solo_fresh)]).
  { repeat constructor. }
  split; [exact H|].
  exact (final_loop_without_work false (tool 0)
           (state_of [("md5:a.mkv", a_fresh); ("md5:solo.mkv", solo_fresh)]) H).
Defined.

Lemma run_without_language_is_harmless_witness :
  let args := mkArgs "/m" None (Some "") true in
  truthy (audio_language args) = false ∧ truthy (subtitle_language args) = false
  ∧ (let r := main args false (ls ["a.mkv"; "solo.mkv"]) md5 (tool 0) (initial disk) in
     Forall (harmless "/m") (trace r.2) ∧ Forall no_args (file_to_tracks r.2)).
Proof.
  cbv zeta. split; [reflexivity|]. split; [reflexivity|].
  apply (run_without_language_is_harmless (mkArgs "/m" None (Some "") true) false
           (ls ["a.mkv"; "solo.mkv"]) md5 (tool 0) eq_refl eq_refl (initial disk)).
  - apply Forall_nil_2.
  - apply Forall_nil_2.
Defined.


End MoreSamples.
